(** * Link normalisation scripts of the raps documentation tree

    A shallow embedding of the three link-rewriting scripts

    - [raps/scripts/add-md-extensions.py]  (module [AddMd]),
    - [raps/scripts/fix-relative-links.py] (module [FixRelative]),
    - [fix-jekyll-links.py]                (module [FixJekyll]),

    together with the part of Python they rely on: [str] methods, the
    backtracking matcher of [re] for the three patterns, [re.sub] with a
    replacement function, and file reads, file writes and prints that
    may raise. *)

From Stdlib Require Import Ascii String DecimalString.
From Stdlib Require Import List NArith Bool Arith Lia.
Import ListNotations.
Close Scope string_scope.

Set Implicit Arguments.

(** ** Python strings

    A [str] is a sequence of Unicode code points. *)

Definition char := N.
Definition str := list char.

(** A literal of the source, written as a Rocq string of ASCII characters. *)
Definition py (s : string) : str := map N_of_ascii (list_ascii_of_string s).
Arguments py s%_string.

Definition LF : char := 10%N.
Definition DQUOTE : char := 34%N.
Definition HASH : char := 35%N.
Definition SQUOTE : char := 39%N.
Definition LPAREN : char := 40%N.
Definition RPAREN : char := 41%N.
Definition SLASH : char := 47%N.
Definition LBRACKET : char := 91%N.
Definition RBRACKET : char := 93%N.
Definition BACKTICK : char := 96%N.

Fixpoint str_eqb (a b : str) : bool :=
  match a, b with
  | [], [] => true
  | x :: a', y :: b' => N.eqb x y && str_eqb a' b'
  | _, _ => false
  end.

(** [s.startswith(prefix)] *)
Fixpoint startswith (prefix s : str) : bool :=
  match prefix with
  | [] => true
  | a :: prefix' =>
      match s with
      | [] => false
      | c :: s' => N.eqb a c && startswith prefix' s'
      end
  end.

(** [s.endswith(suffix)] *)
Definition endswith (suffix s : str) : bool :=
  startswith (rev suffix) (rev s).

(** [c in s] for a one-character [c] *)
Definition char_in (c : char) (s : str) : bool := existsb (N.eqb c) s.

(** [sub in s] for a substring [sub] *)
Fixpoint str_in (sub s : str) : bool :=
  startswith sub s ||
  match s with
  | [] => false
  | _ :: s' => str_in sub s'
  end.

(** [x in [l0, l1, ...]] for a list of strings *)
Definition in_list (x : str) (l : list str) : bool := existsb (str_eqb x) l.

(** [path, anchor = s.split(sep, 1)], for an [s] that contains [sep]:
    the text before the first [sep] and the text after it. *)
Fixpoint split_once (sep : char) (s : str) : str * str :=
  match s with
  | [] => ([], [])
  | c :: s' =>
      if N.eqb c sep then ([], s')
      else let (a, b) := split_once sep s' in (c :: a, b)
  end.

(** [s.lstrip(chars)] *)
Fixpoint lstrip (chars : str) (s : str) : str :=
  match s with
  | [] => []
  | c :: s' => if char_in c chars then lstrip chars s' else s
  end.

(** [str.upper], one code point at a time.  The scripts only compare the
    result with the ASCII words of a deny-list, so the table is exact on
    every code point whose upper-case form is made of ASCII letters alone:
    the letters [a]-[z], U+00DF (SS), U+0131 (I), U+017F (S) and the Latin
    ligatures U+FB00-U+FB06 (FF, FI, FL, FFI, FFL, ST, ST).  The upper-case
    form of any other code point contains a code point outside ASCII; it is
    represented here by the code point itself. *)
Definition upper_char (c : char) : str :=
  if (97 <=? c)%N && (c <=? 122)%N then [(c - 32)%N]
  else if N.eqb c 223 then py "SS"
  else if N.eqb c 305 then py "I"
  else if N.eqb c 383 then py "S"
  else if N.eqb c 64256 then py "FF"
  else if N.eqb c 64257 then py "FI"
  else if N.eqb c 64258 then py "FL"
  else if N.eqb c 64259 then py "FFI"
  else if N.eqb c 64260 then py "FFL"
  else if N.eqb c 64261 then py "ST"
  else if N.eqb c 64262 then py "ST"
  else [c].

Definition upper (s : str) : str := flat_map upper_char s.

(** [str(n)] for a non-negative integer *)
Definition str_of_nat (n : nat) : str :=
  py (NilEmpty.string_of_uint (Nat.to_uint n)).

(** ** The backtracking matcher of [re]

    Each combinator takes the continuation that matches the rest of the
    pattern, and tries its alternatives in the order of [re]: a greedy
    repetition tries the longest run first and gives characters back one
    at a time, an optional item is tried present before absent. *)

Section Backtracking.

Variable R : Type.

(** a literal string *)
Fixpoint r_lit (l : str) (k : str -> option R) (s : str) : option R :=
  match l with
  | [] => k s
  | a :: l' =>
      match s with
      | [] => None
      | c :: s' => if N.eqb a c then r_lit l' k s' else None
      end
  end.

(** [[class]*], greedy; the continuation receives the run it matched *)
Fixpoint r_star (p : char -> bool) (k : str -> str -> option R) (s : str)
  : option R :=
  match s with
  | [] => k [] []
  | c :: s' =>
      if p c then
        match r_star p (fun run => k (c :: run)) s' with
        | Some r => Some r
        | None => k [] s
        end
      else k [] s
  end.

(** [[class]+], greedy *)
Definition r_plus (p : char -> bool) (k : str -> str -> option R) (s : str)
  : option R :=
  r_star p (fun run rest => match run with [] => None | _ => k run rest end) s.

(** [[class]?], greedy *)
Definition r_opt (p : char -> bool) (k : str -> option R) (s : str)
  : option R :=
  match s with
  | [] => k []
  | c :: s' =>
      if p c then
        match k s' with
        | Some r => Some r
        | None => k s
        end
      else k s
  end.

(** [(?:item)?], greedy: the item first, then its absence *)
Definition r_try (item skip : option R) : option R :=
  match item with
  | Some r => Some r
  | None => skip
  end.

End Backtracking.

(** [[^\]]] *)
Definition not_rbracket (c : char) : bool := negb (N.eqb c RBRACKET).
(** [[^\)]] *)
Definition not_rparen (c : char) : bool := negb (N.eqb c RPAREN).
(** a quote character, single or double: the class of the pattern's
    optional quote items *)
Definition is_quote (c : char) : bool := N.eqb c SQUOTE || N.eqb c DQUOTE.
(** any character that is not a quote: the class of group 2 *)
Definition not_quote (c : char) : bool := negb (is_quote c).
(** [\s] on a [str] pattern: the code points for which [str.isspace] holds *)
Definition is_space (c : char) : bool :=
  ((9 <=? c) && (c <=? 13) || (28 <=? c) && (c <=? 32)
   || N.eqb c 133 || N.eqb c 160 || N.eqb c 5760
   || (8192 <=? c) && (c <=? 8202)
   || N.eqb c 8232 || N.eqb c 8233 || N.eqb c 8239 || N.eqb c 8287
   || N.eqb c 12288)%N.

(** ** Match objects *)

Record rmatch := mk_match {
  group0 : str;            (* match.group(0), the text matched *)
  group1 : str;
  group2 : str;
  group3 : option str      (* None when group 3 took no part in the match *)
}.

(** [match.lastindex] for a pattern whose groups 1 and 2 always take part *)
Definition lastindex (m : rmatch) : nat :=
  match group3 m with
  | Some _ => 3
  | None => 2
  end.

(** The text of [s] in front of its suffix [rest]. *)
Definition consumed (s rest : str) : str :=
  firstn (length s - length rest) s.

(** ** [re.sub(pattern, repl, content)] with a function [repl]

    The scan goes from left to right; where the pattern matches, the
    replacement of the match is emitted and the scan goes on behind the
    match; elsewhere one character is copied.  No pattern of the scripts
    matches the empty string. *)

Section ReSub.

(** the pattern tried at the head of the text: the match and the text
    behind it *)
Variable match_at : str -> option (rmatch * str).
Variable repl : rmatch -> str.

Fixpoint sub_from (fuel : nat) (s : str) : str :=
  match fuel with
  | O => s
  | S fuel' =>
      match s with
      | [] => []
      | c :: s' =>
          match match_at s with
          | Some (m, rest) => repl m ++ sub_from fuel' rest
          | None => c :: sub_from fuel' s'
          end
      end
  end.

Definition re_sub (s : str) : str := sub_from (length s) s.

End ReSub.

(** ** Files, standard output and exceptions

    A path names a file, and several paths may name one file: a symbolic
    or a hard link and its target.  [realpath] gives the file that a path
    names, and the text belongs to the file, so that a write through one
    path is what a later read through another path of the same file sees.
    The exception, if any, that opening a document for reading or for
    writing raises belongs to the path.  A write that raises leaves the
    text as it was.  [print] raises when standard output does not take the
    line, as it does under a strict encoding for a path whose name cannot
    be encoded; nothing of the line is printed then.  The trace records
    every read and write the script attempts, in order. *)

Definition path := str.

(** an exception, as the text [str(e)] that the handlers print *)
Definition exn := str.

Record file := mk_file {
  data : str;
  read_exn : option exn;
  write_exn : option exn
}.

Inductive event :=
| ReadOp (p : path)
| WriteOp (p : path) (text : str).

Record world := mk_world {
  docs : option (list path);  (* None: no directory [docs]; otherwise the
                                 files that [docs_dir.rglob] lists *)
  realpath : path -> path;    (* the file that a path names *)
  content : path -> str;      (* the text of a file *)
  read_raises : path -> option exn;
  write_raises : path -> option exn;
  print_raises : list str -> str -> option exn;
                              (* what [print] raises for a line, given the
                                 lines printed so far *)
  stdout : list str;          (* the lines printed so far *)
  trace : list event
}.

(** The document at a path. *)
Definition files (w : world) (p : path) : file :=
  mk_file (content w (realpath w p)) (read_raises w p) (write_raises w p).

Inductive result (A : Type) :=
| Ok (a : A)
| Raise (e : exn).
Arguments Ok {A} a.
Arguments Raise {A} e.

Definition io (A : Type) := world -> result A * world.

Definition ret {A} (a : A) : io A := fun w => (Ok a, w).

Definition bind {A B} (c : io A) (k : A -> io B) : io B :=
  fun w =>
    match c w with
    | (Ok a, w') => k a w'
    | (Raise e, w') => (Raise e, w')
    end.

(** [try: body  except Exception as e: handler]; an exception that the
    handler raises leaves the statement. *)
Definition try_except {A} (body : io A) (handler : exn -> io A) : io A :=
  fun w =>
    match body w with
    | (Ok a, w') => (Ok a, w')
    | (Raise e, w') => handler e w'
    end.

Notation "x <- c ;; k" := (bind c (fun x => k))
  (at level 61, c at next level, right associativity).
Notation "c ;; k" := (bind c (fun _ => k))
  (at level 61, right associativity).

(** [w] with more events on its trace, and with one more line printed *)
Definition traced (w : world) (evs : list event) : world :=
  mk_world (docs w) (realpath w) (content w) (read_raises w) (write_raises w)
    (print_raises w) (stdout w) (trace w ++ evs).

Definition printed (w : world) (line : str) : world :=
  mk_world (docs w) (realpath w) (content w) (read_raises w) (write_raises w)
    (print_raises w) (stdout w ++ [line]) (trace w).

Definition print (line : str) : io unit :=
  fun w =>
    match print_raises w (stdout w) line with
    | Some e => (Raise e, w)
    | None => (Ok tt, printed w line)
    end.

(** [with open(p, 'r', encoding='utf-8') as f: content = f.read()] *)
Definition read_text (p : path) : io str :=
  fun w =>
    let w' := traced w [ReadOp p] in
    match read_exn (files w p) with
    | Some e => (Raise e, w')
    | None => (Ok (data (files w p)), w')
    end.

(** The text goes to the file that [p] names, whatever path reads it
    later. *)
Definition store (p : path) (text : str) (w : world) : world :=
  mk_world (docs w) (realpath w)
    (fun q => if str_eqb q (realpath w p) then text else content w q)
    (read_raises w) (write_raises w) (print_raises w) (stdout w) (trace w).

(** [with open(p, 'w', encoding='utf-8') as f: f.write(text)] *)
Definition write_text (p : path) (text : str) : io unit :=
  fun w =>
    let w' := traced w [WriteOp p text] in
    match write_exn (files w p) with
    | Some e => (Raise e, w')
    | None => (Ok tt, store p text w')
    end.


(** ** The per-document update and the driver

    [add-md-extensions.py] and [fix-jekyll-links.py] share the text of
    both functions, up to the rewriting pass and the line that announces
    it. *)

Section Script.

Variable new_content : str -> str.
Variable banner : str.

Definition fix_file (file_path : path) : io bool :=
  try_except
    (content <- read_text file_path ;;
     let original_content := content in
     let new := new_content content in
     if negb (str_eqb new original_content) then
       write_text file_path new ;;
       ret true
     else ret false)
    (fun e =>
       print (py "Error processing " ++ file_path ++ py ": " ++ e) ;;
       ret false).

(** [for md_file in md_files: ...]; [md_file.relative_to(Path.cwd())]
    raises [ValueError] for the relative paths below [docs], so the path
    printed is [md_file] itself. *)
Fixpoint for_each (md_files : list path) (fixed_count : nat) : io nat :=
  match md_files with
  | [] => ret fixed_count
  | md_file :: md_files' =>
      fixed <- fix_file md_file ;;
      if (fixed : bool) then
        let rel_path := md_file in
        print (py "  Fixed: " ++ rel_path) ;;
        for_each md_files' (fixed_count + 1)
      else for_each md_files' fixed_count
  end.

Definition main : io unit :=
  fun w =>
    match docs w with
    | None => print (py "Error: docs directory not found") w
    | Some md_files =>
        (print (py "Found " ++ str_of_nat (length md_files)
                  ++ py " markdown files") ;;
         print (LF :: banner) ;;
         fixed_count <- for_each md_files 0 ;;
         print (LF :: py "Fixed " ++ str_of_nat fixed_count ++ py " files")) w
    end.

End Script.

(** ** add-md-extensions.py *)

Module AddMd.

(** [pattern = r'\[([^\]]+)\]\(([^\)]+)\)'] *)
Definition pattern (s : str) : option (str * str * str) :=
  r_lit (py "[")
    (r_plus not_rbracket (fun g1 =>
       r_lit (py "](")
         (r_plus not_rparen (fun g2 =>
            r_lit (py ")") (fun rest => Some (g1, g2, rest)))))) s.

Definition match_at (s : str) : option (rmatch * str) :=
  match pattern s with
  | Some (g1, g2, rest) => Some (mk_match (consumed s rest) g1 g2 None, rest)
  | None => None
  end.

Definition denylist : list str := [py "SECURITY"; py "RELEASE"].

Definition replace_link (m : rmatch) : str :=
  let link_text := group1 m in
  let url := group2 m in
  if startswith (py "http://") url || startswith (py "https://") url
     || startswith (py "mailto:") url || startswith (py "#") url
     || startswith (py "ftp://") url || startswith (py "file://") url
  then group0 m
  else if endswith (py ".md") url || endswith (py ".md#") url
  then group0 m
  else if char_in HASH url then
    let (path, anchor) := split_once HASH url in
    match path with
    | [] => group0 m
    | _ =>
        if in_list (upper path) denylist then group0 m
        else
          let new_url := path ++ py ".md#" ++ anchor in
          py "[" ++ link_text ++ py "](" ++ new_url ++ py ")"
    end
  else
    if in_list (upper url) denylist then group0 m
    else
      let new_url := url ++ py ".md" in
      py "[" ++ link_text ++ py "](" ++ new_url ++ py ")".

(** [new_content = re.sub(pattern, replace_link, content)] *)
Definition new_content (content : str) : str :=
  re_sub match_at replace_link content.

Definition fix_links_in_file : path -> io bool := fix_file new_content.

Definition main : io unit :=
  main new_content (py "Adding .md extensions to relative links...").

End AddMd.

(** ** fix-relative-links.py *)

Module FixRelative.

(** [pattern = r'\[([^\]]+)\]\(commands/([^\)]+)\)'] *)
Definition pattern (s : str) : option (str * str * str) :=
  r_lit (py "[")
    (r_plus not_rbracket (fun g1 =>
       r_lit (py "](commands/")
         (r_plus not_rparen (fun g2 =>
            r_lit (py ")") (fun rest => Some (g1, g2, rest)))))) s.

Definition match_at (s : str) : option (rmatch * str) :=
  match pattern s with
  | Some (g1, g2, rest) => Some (mk_match (consumed s rest) g1 g2 None, rest)
  | None => None
  end.

Definition replace_link (m : rmatch) : str :=
  let link_text := group1 m in
  let url := group2 m in
  py "[" ++ link_text ++ py "](" ++ url ++ py ")".

(** [new_content = re.sub(pattern, replace_link, content)] *)
Definition new_content (content : str) : str :=
  re_sub match_at replace_link content.

(** The file is read before the test on its path. *)
Definition fix_links_in_file (file_path : path) : io bool :=
  try_except
    (content <- read_text file_path ;;
     let original_content := content in
     if negb (str_in (py "commands") file_path) then ret false
     else
       let new := new_content content in
       if negb (str_eqb new original_content) then
         write_text file_path new ;;
         ret true
       else ret false)
    (fun e =>
       print (py "Error processing " ++ file_path ++ py ": " ++ e) ;;
       ret false).

(** The loop of [main]; as in the other scripts the path printed is
    [md_file] itself. *)
Fixpoint for_each (md_files : list path) (fixed_count : nat) : io nat :=
  match md_files with
  | [] => ret fixed_count
  | md_file :: md_files' =>
      fixed <- fix_links_in_file md_file ;;
      if (fixed : bool) then
        let rel_path := md_file in
        print (py "  Fixed: " ++ rel_path) ;;
        for_each md_files' (fixed_count + 1)
      else for_each md_files' fixed_count
  end.

(** [main] asks for the directory [docs] and then for [docs/commands];
    [commands] is what the file system answers for the latter: [None]
    when it does not exist, otherwise the files that
    [commands_dir.glob] lists. *)
Definition main (commands : option (list path)) : io unit :=
  fun w =>
    match docs w with
    | None => print (py "Error: docs directory not found") w
    | Some _ =>
        match commands with
        | None => print (py "Error: commands directory not found") w
        | Some md_files =>
            (print (py "Found " ++ str_of_nat (length md_files)
                      ++ py " markdown files in commands directory") ;;
             print (LF :: py "Fixing relative links...") ;;
             fixed_count <- for_each md_files 0 ;;
             print (LF :: py "Fixed " ++ str_of_nat fixed_count
                       ++ py " files")) w
        end
    end.

End FixRelative.

(** ** fix-jekyll-links.py *)

Module FixJekyll.

(** The pattern of [fix_file]: an opening bracket, group 1 (one or more
    characters other than a closing bracket), a closing bracket, an
    opening parenthesis, two opening braces, white space, an optional
    quote, group 2 (one or more characters other than a quote), an
    optional quote, white space, a bar, white space, [relative_url],
    white space, two closing braces, optionally a hash sign with group 3
    (one or more characters other than a closing bracket), and a closing
    parenthesis. *)
Definition pattern (s : str) : option (str * str * option str * str) :=
  r_lit (py "[")
    (r_plus not_rbracket (fun g1 =>
     r_lit (py "]({{")
    (r_star is_space (fun _ =>
     r_opt is_quote
    (r_plus not_quote (fun g2 =>
     r_opt is_quote
    (r_star is_space (fun _ =>
     r_lit (py "|")
    (r_star is_space (fun _ =>
     r_lit (py "relative_url")
    (r_star is_space (fun _ =>
     r_lit (py "}}") (fun s' =>
       r_try
         (r_lit (py "#")
            (r_plus not_rbracket (fun g3 =>
               r_lit (py ")") (fun rest => Some (g1, g2, Some g3, rest)))) s')
         (r_lit (py ")") (fun rest => Some (g1, g2, None, rest)) s')
     ))))))))))))) s.

Definition match_at (s : str) : option (rmatch * str) :=
  match pattern s with
  | Some (g1, g2, g3, rest) =>
      Some (mk_match (consumed s rest) g1 g2 g3, rest)
  | None => None
  end.

(** The extension is added unless the path has it, or starts with [http]
    or with a hash sign. *)
Definition add_extension (url : str) : str :=
  if negb (endswith (py ".md") url) && negb (startswith (py "http") url)
     && negb (startswith (py "#") url)
  then url ++ py ".md"
  else url.

Definition replace_link (m : rmatch) : str :=
  let link_text := group1 m in
  let url_part := group2 m in
  let anchor := if 3 <=? lastindex m then group3 m else None in
  let url := lstrip (py "/") url_part in
  let url := add_extension url in
  let url :=
    match anchor with
    | Some ((_ :: _) as a) => url ++ py "#" ++ a
    | _ => url
    end in
  py "[" ++ link_text ++ py "](" ++ url ++ py ")".

(** [new_content = re.sub(pattern, replace_link, content)] *)
Definition new_content (content : str) : str :=
  re_sub match_at replace_link content.

Definition fix_file : path -> io bool := fix_file new_content.

Definition main : io unit :=
  main new_content (py "Converting Jekyll links to Markdown...").

(** [convert_jekyll_link], a function of the script that nothing calls:
    the link to the path without its leading slashes, with no extension
    and without the fragment. *)
Definition convert_jekyll_link (m : rmatch) : str :=
  let link_text := group1 m in
  let url_part := group2 m in
  let url := lstrip (py "/") url_part in
  py "[" ++ link_text ++ py "](" ++ url ++ py ")".

End FixJekyll.

(** ** Vocabulary of the statements *)

(** The class [p] cannot extend a run into [b]. *)
Definition stops (p : char -> bool) (b : str) : Prop :=
  match b with
  | [] => True
  | c :: _ => p c = false
  end.

Definition nonempty (s : str) : Prop := s <> [].

(** The text of an inline link with display text [text] and target
    [target]. *)
Definition link (text target : str) : str :=
  py "[" ++ text ++ py "](" ++ target ++ py ")".

(** A display text and a target that the two-group patterns read back as
    they stand. *)
Definition display_text (g : str) : Prop :=
  nonempty g /\ forallb not_rbracket g = true.

Definition plain_target (g : str) : Prop :=
  nonempty g /\ forallb not_rparen g = true.

(** An inline code span and a fenced code block around [body]. *)
Definition code_span (body : str) : str :=
  py "`" ++ body ++ py "`".

Definition fenced_block (body : str) : str :=
  py "```" ++ [LF] ++ body ++ [LF] ++ py "```".

(** The targets that the extension-appending pass is said to leave alone:
    a scheme prefix, [mailto:], a pure fragment, the extension already
    there (with nothing or a bare hash sign behind it), or a deny-listed
    bare file name. *)
Definition excluded_target (url : str) : bool :=
  startswith (py "http://") url || startswith (py "https://") url
  || startswith (py "ftp://") url || startswith (py "file://") url
  || startswith (py "mailto:") url || startswith (py "#") url
  || endswith (py ".md") url || endswith (py ".md#") url
  || in_list url AddMd.denylist.

(** The unwrapped paths to which the template pass adds no extension. *)
Definition template_excluded (url_part : str) : bool :=
  startswith (py "http://") url_part || startswith (py "https://") url_part
  || startswith (py "#") url_part || endswith (py ".md") url_part.

(** The fragment as it is attached to a rewritten target. *)
Definition fragment_text (fragment : option str) : str :=
  match fragment with
  | Some ((_ :: _) as a) => py "#" ++ a
  | _ => []
  end.

(** The white space and the quotes of a template helper expression. *)
Record wrapper := mk_wrapper {
  ws_open : str;       (* behind the opening braces *)
  quote_open : char;
  quote_close : char;
  ws_bar : str;        (* in front of the bar *)
  ws_name : str;       (* behind the bar *)
  ws_close : str       (* in front of the closing braces *)
}.

Definition wrapper_ok (x : wrapper) : Prop :=
  forallb is_space (ws_open x) = true /\ is_quote (quote_open x) = true /\
  is_quote (quote_close x) = true /\ forallb is_space (ws_bar x) = true /\
  forallb is_space (ws_name x) = true /\ forallb is_space (ws_close x) = true.

(** The helper expression around [path], a quoted operand piped through
    [relative_url]. *)
Definition helper (x : wrapper) (path : str) : str :=
  py "{{" ++ ws_open x ++ [quote_open x] ++ path ++ [quote_close x]
  ++ ws_bar x ++ py "|" ++ ws_name x ++ py "relative_url" ++ ws_close x
  ++ py "}}".

(** The spelling of the comment in [fix_file]: single quotes and single
    spaces. *)
Definition usual : wrapper :=
  mk_wrapper (py " ") SQUOTE SQUOTE (py " ") (py " ") (py " ").

Definition template_path (p : str) : Prop :=
  nonempty p /\ forallb not_quote p = true.

Definition fragment_ok (fragment : option str) : Prop :=
  match fragment with
  | None => True
  | Some f => nonempty f /\ forallb not_rbracket f = true
  end.

(** The line that the handler of a document prints. *)
Definition error_line (file_path : path) (e : exn) : str :=
  py "Error processing " ++ file_path ++ py ": " ++ e.

(** The last line of a run. *)
Definition summary_line (fixed_count : nat) : str :=
  LF :: py "Fixed " ++ str_of_nat fixed_count ++ py " files".

(** The documents that a trace reads, in order. *)
Definition reads (tr : list event) : list path :=
  flat_map (fun ev => match ev with ReadOp p => [p] | WriteOp _ _ => [] end) tr.

(** The texts written to [p] in a trace, in order. *)
Definition writes_to (p : path) (tr : list event) : list str :=
  flat_map (fun ev =>
              match ev with
              | ReadOp _ => []
              | WriteOp q text => if str_eqb q p then [text] else []
              end) tr.

(** [w'] is a later state of [w]: the paths name the same files and raise
    the same exceptions, standard output takes the same lines, and nothing
    printed was lost. *)
Definition later (w w' : world) : Prop :=
  docs w' = docs w /\
  realpath w' = realpath w /\
  read_raises w' = read_raises w /\
  write_raises w' = write_raises w /\
  print_raises w' = print_raises w /\
  (forall line, In line (stdout w) -> In line (stdout w')).

(** Standard output takes every line. *)
Definition stdout_ok (w : world) : Prop :=
  forall out line, print_raises w out line = None.

(** The paths of the list name files that are pairwise distinct. *)
Definition distinct_files (w : world) (l : list path) : Prop :=
  NoDup (map (realpath w) l).

(** The handler of the update: one line, then [False]. *)
Definition logged (file_path : path) (e : exn) : io bool :=
  print (py "Error processing " ++ file_path ++ py ": " ++ e) ;;
  ret false.

(** A command that writes nothing to a document which the pass leaves as
    it is, and that leaves the document as it was. *)
Definition keeps (new_content : str -> str) (p : path) {A} (c : io A) : Prop :=
  forall w,
    new_content (data (files w p)) = data (files w p) ->
    writes_to p (trace (snd (c w))) = writes_to p (trace w) /\
    files (snd (c w)) p = files w p.

(** The part of a target in front of its first hash sign. *)
Definition path_part (url : str) : str :=
  if char_in HASH url then fst (split_once HASH url) else url.

(** The rewriting of a template link in the words of the specification:
    unwrap the path, strip one leading separator, append the extension when
    it is absent, reattach the fragment. *)
Definition strip_one_separator (p : str) : str :=
  match p with
  | c :: p' => if N.eqb c SLASH then p' else p
  | [] => []
  end.

Definition append_if_absent (p : str) : str :=
  if endswith (py ".md") p then p else p ++ py ".md".

Definition spec_template_rewrite (text p : str) (fragment : option str) : str :=
  link text (append_if_absent (strip_one_separator p) ++ fragment_text fragment).

(** A document that an update rewrites and reports as fixed: it can be
    read, the pass changes its text, and it can be written. *)
Definition fixable (new_content : str -> str) (w : world) (p : path) : bool :=
  match read_exn (files w p), write_exn (files w p) with
  | None, None =>
      negb (str_eqb (new_content (data (files w p))) (data (files w p)))
  | _, _ => false
  end.

(** The line that reports a document as fixed. *)
Definition fixed_line (file_path : path) : str :=
  py "  Fixed: " ++ file_path.

(** A document that raises nothing. *)
Definition healthy (w : world) (p : path) : Prop :=
  read_exn (files w p) = None /\ write_exn (files w p) = None.

(** The path part and the fragment part of a target: the fragment part is
    empty or starts at the first hash sign. *)
Definition fragment_part (url : str) : str :=
  if char_in HASH url then HASH :: snd (split_once HASH url) else [].

(** [n] times the prefix [commands/]. *)
Definition prefixes (n : nat) : str := concat (repeat (py "commands/") n).

(** A stripped path that the extension-appending pass leaves alone once
    the template pass has dealt with it: it does not start with [http],
    or it starts with a full scheme. *)
Definition scheme_ok (url : str) : bool :=
  negb (startswith (py "http") url)
  || startswith (py "http://") url || startswith (py "https://") url.



(** ** Sample matches and worlds *)

(** A tree without links on a standard output that takes every line: each
    path is its own file. *)
Definition plain_world (d : option (list path)) (fs : path -> file) : world :=
  mk_world d (fun p => p) (fun p => data (fs p))
    (fun p => read_exn (fs p)) (fun p => write_exn (fs p))
    (fun _ _ => None) [] [].

(** two healthy documents, one of them with a link to rewrite *)
Definition tidy_files (p : path) : file :=
  if str_eqb p (py "docs/guide.md") then
    mk_file (py "See [Guide](setup) and [API](https://example.com/api).")
      None None
  else mk_file (py "No links here.") None None.

Definition tidy_world : world :=
  plain_world (Some [py "docs/guide.md"; py "docs/index.md"]) tidy_files.

(** a document outside [commands] that holds a link with the prefix *)
Definition outside_world : world :=
  plain_world (Some [py "docs/index.md"])
    (fun _ => mk_file (py "[See](commands/build.md)") None None).


Definition api_match : rmatch :=
  mk_match (py "[API](https://example.com/api)")
    (py "API") (py "https://example.com/api") None.

Definition api_template_match : rmatch :=
  mk_match (py "[API]({{ 'https://example.com/api' | relative_url }})")
    (py "API") (py "https://example.com/api") None.

Definition policy_match : rmatch :=
  mk_match (py "[Policy](Security#reporting)")
    (py "Policy") (py "Security#reporting") None.


(** four documents: one that cannot be read, one to rewrite, one to rewrite
    that cannot be written, one that is canonical already *)
Definition sample_files (p : path) : file :=
  if str_eqb p (py "docs/locked.md") then
    mk_file [] (Some (py "[Errno 13] Permission denied")) None
  else if str_eqb p (py "docs/guide.md") then
    mk_file (py "See [Guide](setup).") None None
  else if str_eqb p (py "docs/frozen.md") then
    mk_file (py "[a](b)") None (Some (py "[Errno 30] Read-only file system"))
  else
    mk_file (py "[API](https://example.com/api)") None None.

Definition sample_world : world :=
  plain_world
    (Some [py "docs/locked.md"; py "docs/guide.md"; py "docs/frozen.md";
           py "docs/api.md"])
    sample_files.

Definition commands_world : world :=
  plain_world None
    (fun p =>
       if str_eqb p (py "docs/commands/auth.md") then
         mk_file (py "Run [See](commands/build.md#usage) first.") None None
       else
         mk_file (py "See [one](other.md) and [See](commands/build.md)")
           None None).





(** * Properties *)

Unset Implicit Arguments.

Arguments py : simpl never.

(** ** Strings *)

Lemma str_eqb_refl (a : str) : str_eqb a a = true.
Proof.
  induction a as [|x a IH]; simpl; [reflexivity|].
  now rewrite N.eqb_refl, IH.
Qed.

Lemma str_eqb_eq (a b : str) : str_eqb a b = true <-> a = b.
Proof.
  split; [|intros ->; apply str_eqb_refl].
  revert b; induction a as [|x a IH]; destruct b as [|y b]; simpl;
    try discriminate; [reflexivity|].
  intros H. apply andb_true_iff in H as [Hx Hab].
  apply N.eqb_eq in Hx. f_equal; auto.
Qed.

Lemma str_eqb_neq (a b : str) : str_eqb a b = false <-> a <> b.
Proof.
  rewrite <- str_eqb_eq. destruct (str_eqb a b); split; congruence.
Qed.

Lemma startswith_app (p s : str) : startswith p (p ++ s) = true.
Proof.
  induction p as [|a p IH]; simpl; [reflexivity|].
  now rewrite N.eqb_refl, IH.
Qed.

Lemma startswith_inv (p s : str) :
  startswith p s = true -> exists t, s = p ++ t.
Proof.
  revert s; induction p as [|a p IH]; intros s H; simpl in H.
  - now exists s.
  - destruct s as [|c s]; [discriminate|].
    apply andb_true_iff in H as [Hac H].
    apply N.eqb_eq in Hac. subst c.
    destruct (IH _ H) as [t ->]. now exists t.
Qed.

Lemma str_in_head (sub s : str) : startswith sub s = true -> str_in sub s = true.
Proof. intros H. destruct s; simpl; now rewrite H. Qed.

Lemma str_in_app (sub a b : str) : str_in sub (a ++ sub ++ b) = true.
Proof.
  induction a as [|c a IH]; simpl.
  - apply str_in_head, startswith_app.
  - rewrite IH. apply orb_true_r.
Qed.

Lemma char_in_false (c : char) (s : str) :
  char_in c s = false <-> forallb (fun x => negb (N.eqb x c)) s = true.
Proof.
  unfold char_in. induction s as [|x s IH]; simpl; [tauto|].
  rewrite orb_false_iff, andb_true_iff, IH, negb_true_iff, (N.eqb_sym c x).
  tauto.
Qed.

(** ** The matcher *)

Section BacktrackingFacts.

Variable R : Type.
Implicit Types (k : str -> option R) (kk : str -> str -> option R).

Lemma r_lit_app l k s : r_lit l k (l ++ s) = k s.
Proof.
  induction l as [|a l IH]; simpl; [reflexivity|].
  now rewrite N.eqb_refl.
Qed.

Lemma r_lit_sound l k s r :
  r_lit l k s = Some r -> exists s', s = l ++ s' /\ k s' = Some r.
Proof.
  revert s; induction l as [|a l IH]; intros s H; simpl in H.
  - now exists s.
  - destruct s as [|c s]; [discriminate|].
    destruct (N.eqb a c) eqn:E; [|discriminate].
    apply N.eqb_eq in E. subst c.
    destruct (IH _ H) as (s' & -> & Hk). now exists s'.
Qed.

Lemma r_lit_head a l k c s : a <> c -> r_lit (a :: l) k (c :: s) = None.
Proof.
  intros H. simpl. apply N.eqb_neq in H. now rewrite H.
Qed.

Lemma r_star_sound p : forall s kk r,
  r_star p kk s = Some r ->
  exists a b, s = a ++ b /\ forallb p a = true /\ kk a b = Some r.
Proof.
  induction s as [|c s IH]; intros kk r H; simpl in H.
  - now exists [], [].
  - destruct (p c) eqn:Hc.
    + destruct (r_star p (fun run => kk (c :: run)) s) as [r'|] eqn:E.
      * inversion H; subst r'.
        apply IH in E as (a & b & -> & Ha & Hk).
        exists (c :: a), b. simpl. now rewrite Hc, Ha.
      * now exists [], (c :: s).
    + now exists [], (c :: s).
Qed.

(** The longest run is the one [re] tries first. *)
Lemma r_star_greedy p : forall a b kk r,
  forallb p a = true -> stops p b -> kk a b = Some r ->
  r_star p kk (a ++ b) = Some r.
Proof.
  induction a as [|c a IH]; intros b kk r Ha Hb Hk; simpl in *.
  - destruct b as [|c b]; simpl in *; [assumption|]. now rewrite Hb.
  - apply andb_true_iff in Ha as [Hc Ha]. rewrite Hc.
    now rewrite (IH b (fun run => kk (c :: run)) r).
Qed.

(** If some run lets the rest of the pattern match, the search succeeds. *)
Lemma r_star_complete p : forall a b kk r,
  forallb p a = true -> kk a b = Some r ->
  exists r', r_star p kk (a ++ b) = Some r'.
Proof.
  induction a as [|c a IH]; intros b kk r Ha Hk; simpl in *.
  - destruct b as [|c b]; simpl; [eauto|].
    destruct (p c); [|eauto].
    destruct (r_star p (fun run => kk (c :: run)) b); eauto.
  - apply andb_true_iff in Ha as [Hc Ha]. rewrite Hc.
    destruct (IH b (fun run => kk (c :: run)) r Ha Hk) as [r' ->]. eauto.
Qed.

Lemma r_plus_sound p s kk r :
  r_plus p kk s = Some r ->
  exists a b, s = a ++ b /\ a <> [] /\ forallb p a = true /\ kk a b = Some r.
Proof.
  intros H. apply r_star_sound in H as (a & b & -> & Ha & Hk).
  exists a, b. destruct a; [discriminate|]. repeat split; auto. discriminate.
Qed.

Lemma r_plus_greedy p a b kk r :
  a <> [] -> forallb p a = true -> stops p b -> kk a b = Some r ->
  r_plus p kk (a ++ b) = Some r.
Proof.
  intros Hne Ha Hb Hk. apply r_star_greedy; auto.
  destruct a; [contradiction|assumption].
Qed.

Lemma r_plus_complete p a b kk r :
  a <> [] -> forallb p a = true -> kk a b = Some r ->
  exists r', r_plus p kk (a ++ b) = Some r'.
Proof.
  intros Hne Ha Hk. eapply r_star_complete; eauto.
  destruct a; [contradiction|eassumption].
Qed.

Lemma r_opt_present p k c s r :
  p c = true -> k s = Some r -> r_opt p k (c :: s) = Some r.
Proof. intros Hc Hk. simpl. now rewrite Hc, Hk. Qed.

Lemma r_opt_sound p k s r :
  r_opt p k s = Some r -> exists a b, s = a ++ b /\ k b = Some r.
Proof.
  destruct s as [|c s]; simpl; intros H.
  - now exists [], [].
  - destruct (p c); [|now exists [], (c :: s)].
    destruct (k s) eqn:E.
    + inversion H; subst. now exists [c], s.
    + now exists [], (c :: s).
Qed.

End BacktrackingFacts.

(** ** [re.sub] *)

Section ReSubFacts.

Variable match_at : str -> option (rmatch * str).
Variable repl : rmatch -> str.

(** A match takes at least one character. *)
Hypothesis match_at_shrinks : forall s m rest,
  match_at s = Some (m, rest) -> length rest < length s.

(** The fuel [length s] is never used up. *)
Lemma sub_from_enough : forall n n' s,
  length s <= n -> length s <= n' ->
  sub_from match_at repl n s = sub_from match_at repl n' s.
Proof.
  induction n as [|n IH]; intros n' s Hn Hn'.
  - destruct s; [|simpl in Hn; lia]. now destruct n'.
  - destruct n' as [|n'].
    + destruct s; [reflexivity|simpl in Hn'; lia].
    + destruct s as [|c s]; [reflexivity|]. simpl.
      destruct (match_at (c :: s)) as [[m rest]|] eqn:E.
      * apply match_at_shrinks in E. simpl in *.
        f_equal. apply IH; lia.
      * f_equal. simpl in *. apply IH; lia.
Qed.

Lemma re_sub_nil : re_sub match_at repl [] = [].
Proof. reflexivity. Qed.

Lemma re_sub_match s m rest :
  match_at s = Some (m, rest) ->
  re_sub match_at repl s = repl m ++ re_sub match_at repl rest.
Proof.
  intros E. pose proof (match_at_shrinks _ _ _ E) as Hlen.
  unfold re_sub. destruct s as [|c s]; [simpl in Hlen; lia|].
  simpl. rewrite E. f_equal. simpl in Hlen. apply sub_from_enough; lia.
Qed.

Lemma re_sub_skip c s :
  match_at (c :: s) = None ->
  re_sub match_at repl (c :: s) = c :: re_sub match_at repl s.
Proof. intros E. unfold re_sub. simpl. now rewrite E. Qed.

(** Text in which no match can start is copied. *)
Lemma re_sub_copy (pre s : str) :
  (forall c t, In c pre -> match_at (c :: t) = None) ->
  re_sub match_at repl (pre ++ s) = pre ++ re_sub match_at repl s.
Proof.
  induction pre as [|c pre IH]; intros H; [reflexivity|].
  simpl. rewrite re_sub_skip by (apply H; now left).
  f_equal. apply IH. intros c' t Hc'. apply H. now right.
Qed.

(** The same, for text that may hold the first character of the pattern:
    it is enough that no match starts at any place of it. *)
Lemma re_sub_copy_run (pre t : str) :
  (forall a1 a2, pre = a1 ++ a2 -> a2 <> [] -> match_at (a2 ++ t) = None) ->
  re_sub match_at repl (pre ++ t) = pre ++ re_sub match_at repl t.
Proof.
  induction pre as [|c pre IH]; intros H; [reflexivity|].
  simpl. rewrite re_sub_skip by (apply (H [] (c :: pre)); [reflexivity|discriminate]).
  f_equal. apply IH. intros a1 a2 E Hne. apply (H (c :: a1) a2); [|exact Hne].
  simpl. now rewrite E.
Qed.

(** A pass that never lengthens a match never lengthens the text. *)
Lemma re_sub_length :
  (forall s m rest, match_at s = Some (m, rest) ->
                    length (repl m) + length rest <= length s) ->
  forall n s, length s <= n ->
  length (re_sub match_at repl s) <= length s.
Proof.
  intros Hrepl. induction n as [|n IH]; intros s Hn.
  - destruct s; [simpl; lia|simpl in Hn; lia].
  - destruct s as [|c s]; [simpl; lia|].
    destruct (match_at (c :: s)) as [[m rest]|] eqn:E.
    + rewrite (re_sub_match _ _ _ E), length_app.
      pose proof (match_at_shrinks _ _ _ E). pose proof (Hrepl _ _ _ E).
      simpl in *. assert (length (re_sub match_at repl rest) <= length rest)
        by (apply IH; lia). lia.
    + rewrite (re_sub_skip _ _ E). simpl in *.
      assert (length (re_sub match_at repl s) <= length s) by (apply IH; lia).
      lia.
Qed.

End ReSubFacts.

Lemma consumed_app (a rest : str) : consumed (a ++ rest) rest = a.
Proof.
  unfold consumed. rewrite length_app.
  replace (length a + length rest - length rest) with (length a) by lia.
  rewrite firstn_app, firstn_all, Nat.sub_diag. simpl. apply app_nil_r.
Qed.

(** ** The pattern of add-md-extensions.py *)

Lemma add_md_pattern_sound s g1 g2 rest :
  AddMd.pattern s = Some (g1, g2, rest) ->
  s = link g1 g2 ++ rest /\ nonempty g1 /\ nonempty g2 /\
  forallb not_rbracket g1 = true /\ forallb not_rparen g2 = true.
Proof.
  unfold AddMd.pattern, link. intros H.
  apply r_lit_sound in H as (s1 & -> & H).
  apply r_plus_sound in H as (a1 & b1 & -> & Hne1 & Ha1 & H).
  apply r_lit_sound in H as (s2 & -> & H).
  apply r_plus_sound in H as (a2 & b2 & -> & Hne2 & Ha2 & H).
  apply r_lit_sound in H as (s3 & -> & H).
  inversion H; subst. rewrite <- !app_assoc. repeat split; assumption.
Qed.

Lemma add_md_pattern_link g1 g2 rest :
  nonempty g1 -> forallb not_rbracket g1 = true ->
  nonempty g2 -> forallb not_rparen g2 = true ->
  AddMd.pattern (link g1 g2 ++ rest) = Some (g1, g2, rest).
Proof.
  intros Hne1 H1 Hne2 H2. unfold AddMd.pattern, link.
  rewrite <- !app_assoc, r_lit_app.
  apply r_plus_greedy; [assumption..|reflexivity|].
  rewrite r_lit_app.
  apply r_plus_greedy; [assumption..|reflexivity|].
  now rewrite r_lit_app.
Qed.

Lemma add_md_match_at_sound s m rest :
  AddMd.match_at s = Some (m, rest) ->
  s = link (group1 m) (group2 m) ++ rest /\
  group0 m = link (group1 m) (group2 m) /\ group3 m = None /\
  nonempty (group1 m) /\ nonempty (group2 m) /\
  forallb not_rbracket (group1 m) = true /\
  forallb not_rparen (group2 m) = true.
Proof.
  unfold AddMd.match_at. intros H.
  destruct (AddMd.pattern s) as [[[g1 g2] r]|] eqn:E; [|discriminate].
  inversion H; subst; clear H. simpl.
  apply add_md_pattern_sound in E as (-> & ? & ? & ? & ?).
  rewrite consumed_app. repeat split; assumption.
Qed.

Lemma add_md_match_at_link g1 g2 rest :
  nonempty g1 -> forallb not_rbracket g1 = true ->
  nonempty g2 -> forallb not_rparen g2 = true ->
  AddMd.match_at (link g1 g2 ++ rest)
  = Some (mk_match (link g1 g2) g1 g2 None, rest).
Proof.
  intros. unfold AddMd.match_at.
  rewrite add_md_pattern_link by assumption. now rewrite consumed_app.
Qed.

Lemma add_md_match_at_shrinks s m rest :
  AddMd.match_at s = Some (m, rest) -> length rest < length s.
Proof.
  intros H. apply add_md_match_at_sound in H as (-> & _).
  unfold link. rewrite !length_app. simpl. lia.
Qed.

Lemma add_md_match_at_head c t :
  c <> LBRACKET -> AddMd.match_at (c :: t) = None.
Proof.
  intros H. unfold AddMd.match_at, AddMd.pattern.
  change (py "[") with [LBRACKET]. rewrite r_lit_head; congruence.
Qed.

(** ** The rewriter of add-md-extensions.py *)

Lemma endswith_iff (suffix s : str) :
  endswith suffix s = true <-> exists t, s = t ++ suffix.
Proof.
  unfold endswith. split.
  - intros H. apply startswith_inv in H as [t Ht].
    exists (rev t). apply (f_equal (@rev char)) in Ht.
    now rewrite rev_involutive, rev_app_distr, rev_involutive in Ht.
  - intros [t ->]. rewrite rev_app_distr. apply startswith_app.
Qed.

Lemma in_denylist (x : str) :
  in_list x AddMd.denylist = true -> x = py "SECURITY" \/ x = py "RELEASE".
Proof.
  unfold in_list, AddMd.denylist. simpl. rewrite !orb_true_iff.
  intros [H|[H|H]]; [left|right|discriminate]; now apply str_eqb_eq.
Qed.

(** Every branch of [replace_link] that tests the deny-list returns the
    match when the test succeeds. *)
Lemma add_md_denylisted (m : rmatch) :
  in_list (upper (path_part (group2 m))) AddMd.denylist = true ->
  AddMd.replace_link m = group0 m.
Proof.
  unfold AddMd.replace_link, path_part. intros H.
  destruct (_ || _ || _ || _ || _ || _); [reflexivity|].
  destruct (_ || _); [reflexivity|].
  destruct (char_in HASH (group2 m)).
  - destruct (split_once HASH (group2 m)) as [path anchor]. cbn [fst] in H.
    destruct path; [reflexivity|]. now rewrite H.
  - now rewrite H.
Qed.

Lemma add_md_excluded (m : rmatch) :
  excluded_target (group2 m) = true -> AddMd.replace_link m = group0 m.
Proof.
  unfold excluded_target. intros H.
  destruct (in_list (group2 m) AddMd.denylist) eqn:D.
  - apply add_md_denylisted.
    apply in_denylist in D as [D|D]; unfold path_part; rewrite D; reflexivity.
  - rewrite orb_false_r in H. unfold AddMd.replace_link.
    destruct (startswith (py "http://") (group2 m)); [reflexivity|].
    destruct (startswith (py "https://") (group2 m)); [reflexivity|].
    destruct (startswith (py "ftp://") (group2 m));
      [now rewrite !orb_true_r|].
    destruct (startswith (py "file://") (group2 m));
      [now rewrite !orb_true_r|].
    destruct (startswith (py "mailto:") (group2 m)); [reflexivity|].
    destruct (startswith (py "#") (group2 m)); [reflexivity|].
    simpl in *. now rewrite H.
Qed.

(** The replacement is the match itself or a link that the rewriter builds
    around the display text. *)
Lemma add_md_replace_cases (m : rmatch) :
  AddMd.replace_link m = group0 m \/
  exists target, AddMd.replace_link m = link (group1 m) target.
Proof.
  unfold AddMd.replace_link, link.
  destruct (_ || _ || _ || _ || _ || _); [now left|].
  destruct (_ || _); [now left|].
  destruct (char_in HASH (group2 m)).
  - destruct (split_once HASH (group2 m)) as [path anchor].
    destruct path; [now left|].
    destruct (in_list _ _); [now left|]. right. eauto.
  - destruct (in_list _ _); [now left|]. right. eauto.
Qed.

Lemma add_md_copy (pre s : str) :
  ~ In LBRACKET pre ->
  AddMd.new_content (pre ++ s) = pre ++ AddMd.new_content s.
Proof.
  intros H. unfold AddMd.new_content. apply re_sub_copy.
  intros c t Hc. apply add_md_match_at_head. congruence.
Qed.

Lemma add_md_link (g1 g2 rest : str) :
  display_text g1 -> plain_target g2 ->
  AddMd.new_content (link g1 g2 ++ rest)
  = AddMd.replace_link (mk_match (link g1 g2) g1 g2 None)
    ++ AddMd.new_content rest.
Proof.
  intros [? ?] [? ?]. unfold AddMd.new_content.
  apply re_sub_match; [exact add_md_match_at_shrinks|].
  now apply add_md_match_at_link.
Qed.

(** ** A second pass of add-md-extensions.py

    Where no target carries a fragment, the pass leaves its own output as
    it is.  The scan of the output finds the links of the first scan, in
    the same places, and each of them now ends with the extension or was
    left alone before. *)

Lemma span_exists (p : char -> bool) (s : str) :
  exists a b, s = a ++ b /\ forallb p a = true /\ stops p b.
Proof.
  induction s as [|c s (a & b & -> & Ha & Hb)].
  - now exists [], [].
  - destruct (p c) eqn:Hc.
    + exists (c :: a), b. simpl. now rewrite Hc, Ha.
    + now exists [], (c :: a ++ b).
Qed.

(** The first character outside the class is where a run ends. *)
Lemma run_unique (p : char -> bool) : forall a b a' b',
  forallb p a = true -> stops p b -> forallb p a' = true -> stops p b' ->
  a ++ b = a' ++ b' -> a = a' /\ b = b'.
Proof.
  induction a as [|c a IH]; intros b [|c' a'] b' Ha Hb Ha' Hb' E;
    simpl in *.
  - auto.
  - subst b. apply andb_true_iff in Ha' as [Hc' _]. simpl in Hb. congruence.
  - subst b'. apply andb_true_iff in Ha as [Hc _]. simpl in Hb'. congruence.
  - injection E as <- E.
    apply andb_true_iff in Ha as [_ Ha]. apply andb_true_iff in Ha' as [_ Ha'].
    destruct (IH b a' b' Ha Hb Ha' Hb' E) as [-> ->]. auto.
Qed.

Lemma add_md_match s m rest :
  AddMd.match_at s = Some (m, rest) ->
  AddMd.new_content s = AddMd.replace_link m ++ AddMd.new_content rest.
Proof. apply re_sub_match. exact add_md_match_at_shrinks. Qed.

Lemma add_md_skip c s :
  AddMd.match_at (c :: s) = None ->
  AddMd.new_content (c :: s) = c :: AddMd.new_content s.
Proof. apply re_sub_skip. Qed.

(** Text without a closing parenthesis holds no link. *)
Lemma add_md_no_rparen (s : str) :
  forallb not_rparen s = true -> AddMd.new_content s = s.
Proof.
  induction s as [|c s IH]; intros H; [reflexivity|].
  rewrite add_md_skip.
  - simpl in H. apply andb_true_iff in H as [_ H]. now rewrite IH.
  - destruct (AddMd.match_at (c :: s)) as [[m r]|] eqn:E; [|reflexivity].
    apply add_md_match_at_sound in E as (E & _).
    rewrite E in H. unfold link in H. rewrite !forallb_app in H.
    repeat rewrite andb_true_iff in H. decompose [and] H.
    match goal with
    | H' : forallb not_rparen (py ")") = true |- _ => discriminate H'
    end.
Qed.

(** The output of the pass begins as its input does: a replacement starts
    with the bracket that its match started with. *)
Lemma add_md_head (c : char) (s : str) :
  exists t, AddMd.new_content (c :: s) = c :: t.
Proof.
  destruct (AddMd.match_at (c :: s)) as [[m r]|] eqn:E.
  - rewrite (add_md_match _ _ _ E).
    apply add_md_match_at_sound in E as (E & E0 & _).
    assert (c = LBRACKET) as -> by (unfold link in E; now injection E).
    destruct (add_md_replace_cases m) as [->|[t ->]];
      [rewrite E0|]; unfold link; eexists; reflexivity.
  - rewrite (add_md_skip _ _ E). eauto.
Qed.

Lemma not_rbracket_false (x : char) : not_rbracket x = false -> x = RBRACKET.
Proof.
  unfold not_rbracket. intros H. apply negb_false_iff in H.
  now apply N.eqb_eq.
Qed.

Lemma not_rparen_false (x : char) : not_rparen x = false -> x = RPAREN.
Proof.
  unfold not_rparen. intros H. apply negb_false_iff in H.
  now apply N.eqb_eq.
Qed.

Lemma link_cons (g1 g2 rest : str) :
  LBRACKET :: g1 ++ RBRACKET :: LPAREN :: g2 ++ RPAREN :: rest
  = link g1 g2 ++ rest.
Proof. unfold link. rewrite <- !app_assoc. reflexivity. Qed.

(** Where the pattern fails at a bracket, it fails at every bracket of the
    run behind it: all of them look at the same closing bracket. *)
Lemma add_md_inner_none (a b : str) :
  forallb not_rbracket a = true -> stops not_rbracket b ->
  AddMd.match_at (LBRACKET :: a ++ b) = None ->
  forall a1 a2, a = a1 ++ a2 -> a2 <> [] -> AddMd.match_at (a2 ++ b) = None.
Proof.
  intros Ha Hb H a1 a2 -> Hne.
  destruct (AddMd.match_at (a2 ++ b)) as [[m r]|] eqn:E; [exfalso|reflexivity].
  apply add_md_match_at_sound in E as (E & _ & _ & Hg1 & Hg2 & Hc1 & Hc2).
  rewrite <- link_cons in E. destruct a2 as [|y a2]; [contradiction|].
  injection E as -> E.
  rewrite forallb_app in Ha. apply andb_true_iff in Ha as [Ha1 Ha2].
  pose proof Ha2 as Ha2'. simpl in Ha2'.
  destruct (run_unique not_rbracket a2 b (group1 m)
              (RBRACKET :: LPAREN :: group2 m ++ RPAREN :: r)
              Ha2' Hb Hc1 eq_refl E) as [-> ->].
  rewrite link_cons in H.
  rewrite add_md_match_at_link in H; try assumption; try discriminate.
  - destruct a1; discriminate.
  - rewrite forallb_app. now rewrite Ha1, Ha2.
Qed.

(** Where the pattern fails in the input of the pass, it fails in the same
    place of its output. *)
Lemma add_md_no_new_match (c : char) (s : str) :
  AddMd.match_at (c :: s) = None ->
  AddMd.match_at (c :: AddMd.new_content s) = None.
Proof.
  destruct (N.eq_dec c LBRACKET) as [->|Hc];
    [|intros _; now apply add_md_match_at_head].
  destruct (span_exists not_rbracket s) as (a & b & -> & Ha & Hb).
  intros H.
  assert (Hcopy : AddMd.new_content (a ++ b) = a ++ AddMd.new_content b).
  { apply re_sub_copy_run. now apply add_md_inner_none. }
  rewrite Hcopy. destruct b as [|x t]; [exact H|].
  apply not_rbracket_false in Hb. subst x.
  rewrite add_md_skip by (apply add_md_match_at_head; discriminate).
  destruct (AddMd.match_at (LBRACKET :: a ++ RBRACKET :: AddMd.new_content t))
    as [[m r]|] eqn:E; [exfalso|reflexivity].
  apply add_md_match_at_sound in E as (E & _ & _ & Hg1 & Hg2 & Hc1 & Hc2).
  rewrite <- link_cons in E. injection E as E.
  destruct (run_unique not_rbracket a (RBRACKET :: AddMd.new_content t)
              (group1 m) (RBRACKET :: LPAREN :: group2 m ++ RPAREN :: r)
              Ha eq_refl Hc1 eq_refl E) as [-> Et].
  injection Et as Et.
  destruct t as [|x t0]; [discriminate Et|].
  destruct (add_md_head x t0) as [t' Ex]. rewrite Ex in Et.
  injection Et as -> _. clear t' Ex.
  assert (Et : AddMd.new_content t0 = group2 m ++ RPAREN :: r).
  { rewrite add_md_skip in E
      by (apply add_md_match_at_head; discriminate).
    apply app_inv_head in E. now injection E. }
  destruct (span_exists not_rparen t0) as (a2 & b2 & -> & Ha2 & Hb2).
  destruct b2 as [|y r'].
  - rewrite app_nil_r in Et. rewrite add_md_no_rparen in Et by assumption.
    rewrite Et, forallb_app in Ha2. apply andb_true_iff in Ha2 as [_ Ha2].
    discriminate Ha2.
  - apply not_rparen_false in Hb2. subst y.
    destruct a2 as [|z a2].
    + simpl in Et. destruct (add_md_head RPAREN r') as [t' Ex].
      rewrite Ex in Et. destruct (group2 m) as [|z g2]; [contradiction|].
      injection Et as <- _. discriminate Hc2.
    + rewrite link_cons in H.
      rewrite add_md_match_at_link in H; try assumption; discriminate.
Qed.

(** A link without a fragment: what the rewriter returns is a link that
    the rewriter returns as it is. *)
Lemma add_md_replace_twice (g1 g2 : str) :
  plain_target g2 -> char_in HASH g2 = false ->
  exists u,
    AddMd.replace_link (mk_match (link g1 g2) g1 g2 None) = link g1 u /\
    plain_target u /\
    AddMd.replace_link (mk_match (link g1 u) g1 u None) = link g1 u.
Proof.
  intros [Hne Hc] Hh.
  assert (Hcases :
            AddMd.replace_link (mk_match (link g1 g2) g1 g2 None) = link g1 g2 \/
            AddMd.replace_link (mk_match (link g1 g2) g1 g2 None)
            = link g1 (g2 ++ py ".md")).
  { unfold AddMd.replace_link. cbn [group0 group1 group2]. rewrite Hh.
    destruct (_ || _ || _ || _ || _ || _); [now left|].
    destruct (_ || _); [now left|].
    destruct (in_list _ _); [now left|now right]. }
  destruct Hcases as [E|E].
  - exists g2. repeat split; assumption.
  - exists (g2 ++ py ".md"). split; [exact E|]. split.
    + split; [destruct g2; [contradiction|discriminate]|].
      rewrite forallb_app, Hc. reflexivity.
    + apply (add_md_excluded (mk_match (link g1 (g2 ++ py ".md")) g1
                                (g2 ++ py ".md") None)).
      unfold excluded_target. cbn [group2].
      assert (endswith (py ".md") (g2 ++ py ".md") = true) as ->
        by (apply endswith_iff; now exists g2).
      now rewrite orb_true_r.
Qed.

(** X2.  On a document without a hash sign, a second pass of
    add-md-extensions.py changes nothing. *)
Lemma add_md_idempotent_without_fragments (s : str) :
  char_in HASH s = false ->
  AddMd.new_content (AddMd.new_content s) = AddMd.new_content s.
Proof.
  assert (H : forall n s, length s <= n -> char_in HASH s = false ->
              AddMd.new_content (AddMd.new_content s) = AddMd.new_content s).
  { clear s. induction n as [|n IH]; intros s Hn Hs.
    - destruct s; [reflexivity|simpl in Hn; lia].
    - destruct s as [|c s]; [reflexivity|].
      destruct (AddMd.match_at (c :: s)) as [[m rest]|] eqn:E.
      + pose proof (add_md_match_at_shrinks _ _ _ E) as Hlen.
        rewrite (add_md_match _ _ _ E).
        apply add_md_match_at_sound in E
          as (Es & E0 & E3 & Hg1 & Hg2 & Hc1 & Hc2).
        destruct m as [g0 g1 g2 g3]. cbn [group0 group1 group2 group3] in *.
        subst g0 g3. rewrite Es in Hs. unfold link, char_in in Hs.
        rewrite !existsb_app in Hs. repeat rewrite orb_false_iff in Hs.
        destruct Hs as ((_ & _ & _ & Hh & _) & Hrest).
        destruct (add_md_replace_twice g1 g2 (conj Hg2 Hc2) Hh)
          as (u & -> & Hu & Eu).
        rewrite add_md_link; [|split; assumption|assumption].
        rewrite Eu. f_equal. apply IH; [simpl in *; lia|exact Hrest].
      + rewrite (add_md_skip _ _ E).
        rewrite add_md_skip by now apply add_md_no_new_match.
        f_equal. simpl in Hn, Hs. apply orb_false_iff in Hs as [_ Hs].
        apply IH; [lia|exact Hs]. }
  apply (H (length s)). lia.
Qed.

(** ** The pattern of fix-relative-links.py *)

Lemma fix_relative_pattern_sound s g1 g2 rest :
  FixRelative.pattern s = Some (g1, g2, rest) ->
  s = link g1 (py "commands/" ++ g2) ++ rest /\ display_text g1 /\ plain_target g2.
Proof.
  unfold FixRelative.pattern, link. intros H.
  apply r_lit_sound in H as (s1 & -> & H).
  apply r_plus_sound in H as (a1 & b1 & -> & Hne1 & Ha1 & H).
  apply r_lit_sound in H as (s2 & -> & H).
  apply r_plus_sound in H as (a2 & b2 & -> & Hne2 & Ha2 & H).
  apply r_lit_sound in H as (s3 & -> & H).
  inversion H; subst. rewrite <- !app_assoc.
  repeat split; assumption.
Qed.

Lemma fix_relative_pattern_link g1 g2 rest :
  display_text g1 -> plain_target g2 ->
  FixRelative.pattern (link g1 (py "commands/" ++ g2) ++ rest)
  = Some (g1, g2, rest).
Proof.
  intros [Hne1 H1] [Hne2 H2]. unfold FixRelative.pattern, link.
  rewrite <- !app_assoc, r_lit_app.
  apply r_plus_greedy; [assumption..|reflexivity|].
  change (py "](" ++ py "commands/" ++ g2 ++ py ")" ++ rest)
    with (py "](commands/" ++ g2 ++ py ")" ++ rest).
  rewrite r_lit_app.
  apply r_plus_greedy; [assumption..|reflexivity|].
  now rewrite r_lit_app.
Qed.

Lemma fix_relative_match_at_shrinks s m rest :
  FixRelative.match_at s = Some (m, rest) -> length rest < length s.
Proof.
  unfold FixRelative.match_at. intros H.
  destruct (FixRelative.pattern s) as [[[g1 g2] r]|] eqn:E; [|discriminate].
  inversion H; subst; clear H.
  apply fix_relative_pattern_sound in E as (-> & _).
  unfold link. rewrite !length_app. simpl. lia.
Qed.

Lemma fix_relative_match_at_head c t :
  c <> LBRACKET -> FixRelative.match_at (c :: t) = None.
Proof.
  intros H. unfold FixRelative.match_at, FixRelative.pattern.
  change (py "[") with [LBRACKET]. rewrite r_lit_head; congruence.
Qed.

Lemma fix_relative_copy (pre s : str) :
  ~ In LBRACKET pre ->
  FixRelative.new_content (pre ++ s) = pre ++ FixRelative.new_content s.
Proof.
  intros H. unfold FixRelative.new_content. apply re_sub_copy.
  intros c t Hc. apply fix_relative_match_at_head. congruence.
Qed.

Lemma fix_relative_link (g1 g2 rest : str) :
  display_text g1 -> plain_target g2 ->
  FixRelative.new_content (link g1 (py "commands/" ++ g2) ++ rest)
  = link g1 g2 ++ FixRelative.new_content rest.
Proof.
  intros H1 H2. unfold FixRelative.new_content.
  erewrite re_sub_match; [|exact fix_relative_match_at_shrinks|].
  2:{ unfold FixRelative.match_at.
      rewrite fix_relative_pattern_link by assumption. reflexivity. }
  reflexivity.
Qed.

(** The pass only removes text. *)
Lemma fix_relative_length (s : str) :
  length (FixRelative.new_content s) <= length s.
Proof.
  unfold FixRelative.new_content.
  apply re_sub_length with (n := length s);
    [exact fix_relative_match_at_shrinks| |lia].
  clear s. intros s m rest H. unfold FixRelative.match_at in H.
  destruct (FixRelative.pattern s) as [[[g1 g2] r]|] eqn:E; [|discriminate].
  inversion H; subst; clear H.
  apply fix_relative_pattern_sound in E as (-> & _).
  unfold FixRelative.replace_link, link. simpl.
  rewrite !length_app. simpl. rewrite !length_app. simpl. lia.
Qed.

(** ** The pattern of fix-jekyll-links.py *)

Lemma quote_not_space (q : char) : is_quote q = true -> is_space q = false.
Proof.
  unfold is_quote. intros H. apply orb_true_iff in H as [H|H];
    apply N.eqb_eq in H; subst q; reflexivity.
Qed.

Lemma quote_not_not_quote (q : char) : is_quote q = true -> not_quote q = false.
Proof. unfold not_quote. now intros ->. Qed.

(** Whatever the matcher finds is a link around the display text of
    group 1. *)
Lemma fix_jekyll_pattern_sound s g1 g2 g3 rest :
  FixJekyll.pattern s = Some (g1, g2, g3, rest) ->
  exists target, s = link g1 target ++ rest.
Proof.
  unfold FixJekyll.pattern. intros E.
  apply r_lit_sound in E as (s1 & -> & E).
  apply r_plus_sound in E as (a1 & b1 & -> & _ & _ & E).
  apply r_lit_sound in E as (s2 & -> & E).
  apply r_star_sound in E as (a2 & b2 & -> & _ & E).
  apply r_opt_sound in E as (a3 & b3 & -> & E).
  apply r_plus_sound in E as (a4 & b4 & -> & _ & _ & E).
  apply r_opt_sound in E as (a5 & b5 & -> & E).
  apply r_star_sound in E as (a6 & b6 & -> & _ & E).
  apply r_lit_sound in E as (s7 & -> & E).
  apply r_star_sound in E as (a8 & b8 & -> & _ & E).
  apply r_lit_sound in E as (s9 & -> & E).
  apply r_star_sound in E as (a10 & b10 & -> & _ & E).
  apply r_lit_sound in E as (s11 & -> & E).
  unfold r_try in E.
  destruct (r_lit (py "#") _ s11) as [r'|] eqn:E'.
  - inversion E; subst r'; clear E.
    apply r_lit_sound in E' as (s12 & -> & E).
    apply r_plus_sound in E as (a13 & b13 & -> & _ & _ & E).
    apply r_lit_sound in E as (s14 & -> & E).
    injection E as <- <- <- <-.
    exists (py "{{" ++ a2 ++ a3 ++ a4 ++ a5 ++ a6 ++ py "|" ++ a8
            ++ py "relative_url" ++ a10 ++ py "}}" ++ py "#" ++ a13).
    unfold link. rewrite <- !app_assoc. reflexivity.
  - apply r_lit_sound in E as (s12 & -> & E).
    injection E as <- <- <- <-.
    exists (py "{{" ++ a2 ++ a3 ++ a4 ++ a5 ++ a6 ++ py "|" ++ a8
            ++ py "relative_url" ++ a10 ++ py "}}").
    unfold link. rewrite <- !app_assoc. reflexivity.
Qed.

Lemma fix_jekyll_match_at_sound s m rest :
  FixJekyll.match_at s = Some (m, rest) ->
  exists target, s = link (group1 m) target ++ rest /\
                 group0 m = link (group1 m) target.
Proof.
  unfold FixJekyll.match_at. intros H.
  destruct (FixJekyll.pattern s) as [[[[g1 g2] g3] r]|] eqn:E; [|discriminate].
  inversion H; subst; clear H.
  apply fix_jekyll_pattern_sound in E as (target & ->).
  exists target. cbn [group0 group1]. now rewrite consumed_app.
Qed.

Lemma fix_jekyll_match_at_shrinks s m rest :
  FixJekyll.match_at s = Some (m, rest) -> length rest < length s.
Proof.
  intros H. apply fix_jekyll_match_at_sound in H as (target & -> & _).
  unfold link. rewrite !length_app. simpl. lia.
Qed.

Lemma fix_jekyll_match_at_head c t :
  c <> LBRACKET -> FixJekyll.match_at (c :: t) = None.
Proof.
  intros H. unfold FixJekyll.match_at, FixJekyll.pattern.
  change (py "[") with [LBRACKET]. rewrite r_lit_head; congruence.
Qed.

Lemma fix_jekyll_copy (pre s : str) :
  ~ In LBRACKET pre ->
  FixJekyll.new_content (pre ++ s) = pre ++ FixJekyll.new_content s.
Proof.
  intros H. unfold FixJekyll.new_content. apply re_sub_copy.
  intros c t Hc. apply fix_jekyll_match_at_head. congruence.
Qed.

(** The end of the pattern, behind the closing braces: the fragment group
    may run on into the text behind the link, up to a later closing
    parenthesis, but what it takes it gives back in the same place. *)
Lemma fix_jekyll_fragment (g1 g2 : str) (fragment : option str) (rest : str) :
  fragment_ok fragment ->
  exists g3 rest',
    r_try
      (r_lit (py "#")
         (r_plus not_rbracket (fun g3 =>
            r_lit (py ")") (fun rest => Some (g1, g2, Some g3, rest))))
         (fragment_text fragment ++ py ")" ++ rest))
      (r_lit (py ")") (fun rest => Some (g1, g2, None, rest))
         (fragment_text fragment ++ py ")" ++ rest))
    = Some (g1, g2, g3, rest') /\
    fragment_text g3 ++ py ")" ++ rest'
    = fragment_text fragment ++ py ")" ++ rest.
Proof.
  intros Hf. destruct fragment as [f|].
  - destruct Hf as [Hne Hf].
    assert (fragment_text (Some f) = py "#" ++ f) as ->
      by (destruct f; [contradiction|reflexivity]).
    destruct (r_plus_complete _ not_rbracket f (py ")" ++ rest)
               (fun g3 => r_lit (py ")")
                  (fun rest => Some (g1, g2, Some g3, rest)))
               (g1, g2, Some f, rest) Hne Hf (r_lit_app _ _ _ _))
      as [r' Hr'].
    pose proof Hr' as Hs.
    apply r_plus_sound in Hs as (a & b & Hab & Ha & _ & Hk).
    apply r_lit_sound in Hk as (rest' & -> & Hk). inversion Hk; subst r'.
    exists (Some a), rest'.
    rewrite <- app_assoc, r_lit_app, Hr'. repeat split.
    destruct a; [contradiction|]. rewrite Hab. reflexivity.
  - exists None, rest.
    assert (E : forall k : str -> option (str * str * option str * str),
               r_lit (py "#") k (py ")" ++ rest) = None) by reflexivity.
    cbn [fragment_text app]. rewrite E. cbn [r_try].
    rewrite r_lit_app. repeat split.
Qed.

Lemma fix_jekyll_pattern_link x g1 p fragment rest :
  wrapper_ok x -> display_text g1 -> template_path p -> fragment_ok fragment ->
  exists g3 rest',
    FixJekyll.pattern (link g1 (helper x p ++ fragment_text fragment) ++ rest)
    = Some (g1, p, g3, rest') /\
    fragment_text g3 ++ py ")" ++ rest'
    = fragment_text fragment ++ py ")" ++ rest.
Proof.
  intros (Hw1 & Hq1 & Hq2 & Hw2 & Hw3 & Hw4) [Hne1 Hg1] [Hnep Hp] Hf.
  destruct (fix_jekyll_fragment g1 p fragment rest Hf) as (g3 & rest' & E & Eq).
  exists g3, rest'. split; [|exact Eq].
  set (tail := fragment_text fragment ++ py ")" ++ rest) in *.
  assert (link g1 (helper x p ++ fragment_text fragment) ++ rest
          = py "[" ++ g1 ++ py "]({{" ++ ws_open x ++ quote_open x :: p
            ++ quote_close x :: ws_bar x ++ py "|" ++ ws_name x
            ++ py "relative_url" ++ ws_close x ++ py "}}" ++ tail) as ->.
  { unfold link, helper, tail. rewrite <- !app_assoc. reflexivity. }
  unfold FixJekyll.pattern. rewrite r_lit_app.
  apply r_plus_greedy; [assumption..|reflexivity|].
  rewrite r_lit_app.
  apply r_star_greedy; [assumption|now apply quote_not_space|].
  apply r_opt_present; [assumption|].
  apply r_plus_greedy; [assumption..|now apply quote_not_not_quote|].
  apply r_opt_present; [assumption|].
  apply r_star_greedy; [assumption|reflexivity|].
  rewrite r_lit_app.
  apply r_star_greedy; [assumption|reflexivity|].
  rewrite r_lit_app.
  apply r_star_greedy; [assumption|reflexivity|].
  rewrite r_lit_app. exact E.
Qed.

(** What [replace_link] returns, in one expression. *)
Lemma fix_jekyll_replace (m : rmatch) :
  FixJekyll.replace_link m
  = link (group1 m)
      (FixJekyll.add_extension (lstrip (py "/") (group2 m))
       ++ fragment_text (group3 m)).
Proof.
  unfold FixJekyll.replace_link, lastindex, link.
  destruct (group3 m) as [[|c a]|]; simpl; now rewrite ?app_nil_r.
Qed.

(** Leading slashes are not part of the extension. *)
Lemma lstrip_endswith (u : str) :
  endswith (py ".md") u = true ->
  endswith (py ".md") (lstrip (py "/") u) = true.
Proof.
  induction u as [|c u IH]; intros H; [exact H|].
  cbn [lstrip]. destruct (char_in c (py "/")) eqn:E; [|exact H].
  apply IH. apply endswith_iff in H as [t Ht]. apply endswith_iff.
  destruct t as [|c' t].
  - injection Ht as -> _. discriminate E.
  - injection Ht as _ ->. now exists t.
Qed.

Lemma template_excluded_no_extension (u : str) :
  template_excluded u = true ->
  FixJekyll.add_extension (lstrip (py "/") u) = lstrip (py "/") u.
Proof.
  unfold template_excluded, FixJekyll.add_extension. intros H.
  repeat rewrite orb_true_iff in H.
  destruct H as [[[H|H]|H]|H].
  - apply startswith_inv in H as [t ->].
    now destruct (endswith _ (lstrip _ (py "http://" ++ t))).
  - apply startswith_inv in H as [t ->].
    now destruct (endswith _ (lstrip _ (py "https://" ++ t))).
  - apply startswith_inv in H as [t ->].
    now destruct (endswith _ (lstrip _ (py "#" ++ t))).
  - now rewrite (lstrip_endswith _ H).
Qed.

(** A template link without a fragment, in a document: the scan goes on
    right behind it. *)
Lemma fix_jekyll_plain_link x g1 p rest :
  wrapper_ok x -> display_text g1 -> template_path p ->
  FixJekyll.new_content (link g1 (helper x p) ++ rest)
  = link g1 (FixJekyll.add_extension (lstrip (py "/") p))
    ++ FixJekyll.new_content rest.
Proof.
  intros Hx Hg1 Hp.
  destruct (fix_jekyll_pattern_link x g1 p None rest Hx Hg1 Hp I)
    as (g3 & rest' & E & Eq).
  cbn [fragment_text] in E. rewrite app_nil_r in E.
  unfold FixJekyll.new_content.
  erewrite re_sub_match; [|exact fix_jekyll_match_at_shrinks|].
  2:{ unfold FixJekyll.match_at. rewrite E. reflexivity. }
  rewrite fix_jekyll_replace. cbn [group1 group2 group3].
  destruct g3 as [[|c a]|]; cbn [fragment_text app] in Eq;
    try discriminate Eq; injection Eq as ->; now rewrite app_nil_r.
Qed.

(** ** The wrapper that the template pass removes *)

Lemma lstrip_length (chars u : str) : length (lstrip chars u) <= length u.
Proof.
  induction u as [|c u IH]; [reflexivity|]. cbn [lstrip].
  destruct (char_in c chars); simpl; lia.
Qed.

Lemma add_extension_length (u : str) :
  length (FixJekyll.add_extension u) <= length u + 3.
Proof.
  unfold FixJekyll.add_extension.
  destruct (_ && _); [rewrite length_app; simpl|]; lia.
Qed.

Ltac literal_lengths :=
  repeat match goal with
         | |- context [length (py ?s)] =>
             let n := eval vm_compute in (length (py s)) in
             change (length (py s)) with n
         end.

(** The braces, the bar and the name of the filter around group 2 take at
    least seventeen characters of the target of a match. *)
Lemma fix_jekyll_pattern_wrapped s g1 g2 g3 rest :
  FixJekyll.pattern s = Some (g1, g2, g3, rest) ->
  exists target,
    s = link g1 target ++ rest /\
    length g2 + length (fragment_text g3) + 17 <= length target.
Proof.
  unfold FixJekyll.pattern. intros E.
  apply r_lit_sound in E as (s1 & -> & E).
  apply r_plus_sound in E as (a1 & b1 & -> & _ & _ & E).
  apply r_lit_sound in E as (s2 & -> & E).
  apply r_star_sound in E as (a2 & b2 & -> & _ & E).
  apply r_opt_sound in E as (a3 & b3 & -> & E).
  apply r_plus_sound in E as (a4 & b4 & -> & _ & _ & E).
  apply r_opt_sound in E as (a5 & b5 & -> & E).
  apply r_star_sound in E as (a6 & b6 & -> & _ & E).
  apply r_lit_sound in E as (s7 & -> & E).
  apply r_star_sound in E as (a8 & b8 & -> & _ & E).
  apply r_lit_sound in E as (s9 & -> & E).
  apply r_star_sound in E as (a10 & b10 & -> & _ & E).
  apply r_lit_sound in E as (s11 & -> & E).
  unfold r_try in E.
  destruct (r_lit (py "#") _ s11) as [r'|] eqn:E'.
  - inversion E; subst r'; clear E.
    apply r_lit_sound in E' as (s12 & -> & E).
    apply r_plus_sound in E as (a13 & b13 & -> & Hne & _ & E).
    apply r_lit_sound in E as (s14 & -> & E).
    injection E as <- <- <- <-.
    exists (py "{{" ++ a2 ++ a3 ++ a4 ++ a5 ++ a6 ++ py "|" ++ a8
            ++ py "relative_url" ++ a10 ++ py "}}" ++ py "#" ++ a13).
    split; [unfold link; rewrite <- !app_assoc; reflexivity|].
    destruct a13 as [|c a13]; [now contradiction Hne|].
    cbn [fragment_text]. rewrite !length_app. literal_lengths. lia.
  - apply r_lit_sound in E as (s12 & -> & E).
    injection E as <- <- <- <-.
    exists (py "{{" ++ a2 ++ a3 ++ a4 ++ a5 ++ a6 ++ py "|" ++ a8
            ++ py "relative_url" ++ a10 ++ py "}}").
    split; [unfold link; rewrite <- !app_assoc; reflexivity|].
    cbn [fragment_text]. rewrite !length_app. literal_lengths.
    cbn [length]. lia.
Qed.

(** So the replacement of a match is never the match. *)
Lemma fix_jekyll_never_verbatim s m rest :
  FixJekyll.match_at s = Some (m, rest) ->
  FixJekyll.replace_link m <> group0 m.
Proof.
  unfold FixJekyll.match_at. intros H.
  destruct (FixJekyll.pattern s) as [[[[g1 g2] g3] r]|] eqn:E; [|discriminate].
  inversion H; subst; clear H.
  apply fix_jekyll_pattern_wrapped in E as (target & -> & Hlen).
  rewrite fix_jekyll_replace. cbn [group0 group1 group2 group3].
  rewrite consumed_app. intros Heq.
  apply (f_equal (@length char)) in Heq. unfold link in Heq.
  rewrite !length_app in Heq.
  pose proof (lstrip_length (py "/") g2).
  pose proof (add_extension_length (lstrip (py "/") g2)). lia.
Qed.

(** ** Worlds *)

Lemma bind_ok {A B} (c : io A) (k : A -> io B) (w w1 : world) (a : A) :
  c w = (Ok a, w1) -> bind c k w = k a w1.
Proof. intros H. unfold bind. now rewrite H. Qed.

Lemma traced_app (w : world) (a b : list event) :
  traced (traced w a) b = traced w (a ++ b).
Proof. unfold traced. cbn. now rewrite <- app_assoc. Qed.

Lemma later_refl w : later w w.
Proof. repeat split; auto. Qed.

Lemma later_trans w1 w2 w3 : later w1 w2 -> later w2 w3 -> later w1 w3.
Proof.
  intros (Hd & Hp & Hr & Hw & Hq & Ho) (Hd' & Hp' & Hr' & Hw' & Hq' & Ho').
  repeat split; try congruence. auto.
Qed.

Lemma later_printed w line : later w (printed w line).
Proof.
  repeat split; auto. cbn. intros l Hl. apply in_or_app. now left.
Qed.

Lemma later_traced w evs : later w (traced w evs).
Proof. repeat split; auto. Qed.

Lemma later_store w p text : later w (store p text w).
Proof. repeat split; auto. Qed.

(** A later state shows the same document at a path whose file has kept
    its text. *)
Lemma later_files (w w' : world) (p : path) :
  later w w' -> content w' (realpath w p) = content w (realpath w p) ->
  files w' p = files w p.
Proof.
  intros (_ & Hp & Hr & Hw & _) Hc. unfold files. now rewrite Hp, Hr, Hw, Hc.
Qed.

Lemma later_exns (w w' : world) (p : path) :
  later w w' ->
  read_exn (files w' p) = read_exn (files w p) /\
  write_exn (files w' p) = write_exn (files w p).
Proof. intros (_ & _ & Hr & Hw & _). cbn. now rewrite Hr, Hw. Qed.

Lemma later_stdout_ok (w w' : world) : later w w' -> stdout_ok w -> stdout_ok w'.
Proof. intros (_ & _ & _ & _ & Hq & _) H out line. rewrite Hq. apply H. Qed.

Lemma later_raises (w w' : world) (e : exn) :
  later w w' ->
  (exists out line, print_raises w' out line = Some e) ->
  exists out line, print_raises w out line = Some e.
Proof. intros (_ & _ & _ & _ & Hq & _) (out & line & H). rewrite Hq in H. eauto. Qed.

Lemma later_distinct (w w' : world) (l : list path) :
  later w w' -> distinct_files w l -> distinct_files w' l.
Proof. intros (_ & Hp & _) H. unfold distinct_files. now rewrite Hp. Qed.

Lemma reads_app tr tr' : reads (tr ++ tr') = reads tr ++ reads tr'.
Proof. apply flat_map_app. Qed.

Lemma writes_to_app p tr tr' :
  writes_to p (tr ++ tr') = writes_to p tr ++ writes_to p tr'.
Proof. apply flat_map_app. Qed.

(** ** Printing *)

Lemma print_ok (line : str) (w : world) :
  stdout_ok w -> print line w = (Ok tt, printed w line).
Proof. intros H. unfold print. now rewrite H. Qed.

(** [print] prints the line or raises what standard output raises for it,
    and touches nothing else. *)
Lemma print_step (line : str) (w : world) :
  exists r w1,
    print line w = (r, w1) /\ later w w1 /\
    content w1 = content w /\ trace w1 = trace w /\
    match r with
    | Ok _ => w1 = printed w line
    | Raise e => w1 = w /\ print_raises w (stdout w) line = Some e
    end.
Proof.
  unfold print. destruct (print_raises w (stdout w) line) as [e|] eqn:E.
  - exists (Raise e), w. repeat split; auto.
  - exists (Ok tt), (printed w line). repeat split; auto.
    cbn. intros l Hl. apply in_or_app. now left.
Qed.

Lemma logged_cases (p : path) (e : exn) (w : world) :
  logged p e w =
  match print_raises w (stdout w) (error_line p e) with
  | Some e' => (Raise e', w)
  | None => (Ok false, printed w (error_line p e))
  end.
Proof.
  unfold logged, bind, print, ret, error_line.
  now destruct (print_raises w (stdout w) _).
Qed.

(** ** The update of fix-relative-links.py *)

Lemma fix_relative_fix_cases (p : path) (w : world) :
  str_in (py "commands") p = true ->
  read_exn (files w p) = None -> write_exn (files w p) = None ->
  FixRelative.new_content (data (files w p)) <> data (files w p) ->
  FixRelative.fix_links_in_file p w
  = (Ok true,
     store p (FixRelative.new_content (data (files w p)))
       (traced w [ReadOp p;
                  WriteOp p (FixRelative.new_content (data (files w p)))])).
Proof.
  intros Hp Hr Hw Hc. apply str_eqb_neq in Hc.
  unfold FixRelative.fix_links_in_file, try_except, bind, read_text,
    write_text, ret.
  rewrite Hr, Hp. cbn [negb]. rewrite Hc. cbn [negb].
  change (write_exn (files (traced w [ReadOp p]) p))
    with (write_exn (files w p)).
  rewrite Hw, traced_app. reflexivity.
Qed.

(** ** The per-document update *)

Section ScriptFacts.

Variable new_content : str -> str.
Variable banner : str.

(** The ways through [fix_file]. *)
Lemma fix_file_cases (p : path) (w : world) :
  fix_file new_content p w =
  match read_exn (files w p) with
  | Some e => logged p e (traced w [ReadOp p])
  | None =>
      let new := new_content (data (files w p)) in
      if str_eqb new (data (files w p)) then (Ok false, traced w [ReadOp p])
      else
        match write_exn (files w p) with
        | Some e => logged p e (traced w [ReadOp p; WriteOp p new])
        | None => (Ok true, store p new (traced w [ReadOp p; WriteOp p new]))
        end
  end.
Proof.
  unfold fix_file, try_except, bind, read_text, write_text, ret.
  destruct (read_exn (files w p)); [reflexivity|].
  cbv zeta. destruct (str_eqb _ _); cbn [negb]; [reflexivity|].
  change (write_exn (files (traced w [ReadOp p]) p))
    with (write_exn (files w p)).
  rewrite traced_app.
  destruct (write_exn (files w p)); reflexivity.
Qed.

Lemma fix_file_unchanged (p : path) (w : world) :
  read_exn (files w p) = None ->
  new_content (data (files w p)) = data (files w p) ->
  fix_file new_content p w = (Ok false, traced w [ReadOp p]).
Proof.
  intros Hr Hc. rewrite fix_file_cases, Hr. cbv zeta.
  now rewrite Hc, str_eqb_refl.
Qed.

Lemma fix_file_changed (p : path) (w : world) :
  read_exn (files w p) = None ->
  new_content (data (files w p)) <> data (files w p) ->
  trace (snd (fix_file new_content p w))
  = trace w ++ [ReadOp p; WriteOp p (new_content (data (files w p)))].
Proof.
  intros Hr Hc. rewrite fix_file_cases, Hr. cbv zeta.
  apply str_eqb_neq in Hc. rewrite Hc.
  destruct (write_exn (files w p)); [|reflexivity].
  rewrite logged_cases. now destruct (print_raises _ _ _).
Qed.

(** One document: it is read once; the only file that can change is the
    one its path names; a failure is printed with the path and the cause;
    and an exception that leaves the update is one that [print] raised. *)
Lemma fix_file_step (q : path) (w : world) :
  exists r w1,
    fix_file new_content q w = (r, w1) /\
    later w w1 /\
    reads (trace w1) = reads (trace w) ++ [q] /\
    (forall f, f <> realpath w q -> content w1 f = content w f) /\
    match r with
    | Ok b =>
        b = fixable new_content w q /\
        (b = false -> content w1 = content w) /\
        (forall e, read_exn (files w q) = Some e ->
                   In (error_line q e) (stdout w1)) /\
        (forall e, read_exn (files w q) = None ->
                   new_content (data (files w q)) <> data (files w q) ->
                   write_exn (files w q) = Some e ->
                   In (error_line q e) (stdout w1)) /\
        (read_exn (files w q) = None -> write_exn (files w q) = None ->
         data (files w1 q) = new_content (data (files w q)))
    | Raise e =>
        content w1 = content w /\
        exists out line, print_raises w out line = Some e
    end.
Proof.
  rewrite fix_file_cases. unfold fixable.
  destruct (read_exn (files w q)) as [e|] eqn:Hr.
  { rewrite logged_cases. cbn [stdout traced print_raises].
    destruct (print_raises w (stdout w) (error_line q e)) as [e'|] eqn:Hp.
    - eexists _, _. split; [reflexivity|]. cbn. rewrite reads_app.
      repeat split; eauto.
    - eexists _, _. split; [reflexivity|]. cbn. rewrite reads_app.
      repeat split; auto; try congruence.
      + intros l Hl. apply in_or_app. now left.
      + intros e' He'. inversion He'; subst. apply in_or_app. right. now left. }
  cbv zeta.
  destruct (str_eqb _ _) eqn:Hc.
  { eexists _, _. split; [reflexivity|]. cbn. rewrite reads_app.
    apply str_eqb_eq in Hc. cbn in Hc.
    repeat split; auto; try congruence.
    now destruct (write_raises w q). }
  destruct (write_exn (files w q)) as [e|] eqn:Hw.
  { rewrite logged_cases. cbn [stdout traced print_raises].
    destruct (print_raises w (stdout w) (error_line q e)) as [e'|] eqn:Hp.
    - eexists _, _. split; [reflexivity|]. cbn. rewrite reads_app.
      repeat split; eauto.
    - eexists _, _. split; [reflexivity|]. cbn. rewrite reads_app.
      repeat split; auto; try congruence.
      + intros l Hl. apply in_or_app. now left.
      + intros e' _ _ He'. inversion He'; subst.
        apply in_or_app. right. now left. }
  eexists _, _. split; [reflexivity|]. cbn. rewrite reads_app.
  repeat split; auto; try congruence.
  - intros f Hf. apply str_eqb_neq in Hf. now rewrite Hf.
  - intros _ _. now rewrite str_eqb_refl.
Qed.

Lemma for_each_cons (q : path) (l : list path) (n : nat) (w : world) :
  for_each new_content (q :: l) n w =
  match fix_file new_content q w with
  | (Ok true, w1) =>
      match print (fixed_line q) w1 with
      | (Ok _, w2) => for_each new_content l (n + 1) w2
      | (Raise e, w2) => (Raise e, w2)
      end
  | (Ok false, w1) => for_each new_content l n w1
  | (Raise e, w1) => (Raise e, w1)
  end.
Proof.
  cbn [for_each]. unfold bind at 1.
  destruct (fix_file new_content q w) as [[[|]|e] w1]; reflexivity.
Qed.

(** The loop, whatever standard output does: it reads the listed
    documents in order, up to the one at which [print] raised if any; it
    changes no file that the list does not name; and an exception that
    leaves it is one that [print] raised. *)
Lemma for_each_gen : forall (l : list path) (n : nat) (w : world),
  exists r w',
    for_each new_content l n w = (r, w') /\
    later w w' /\
    (forall f, ~ In f (map (realpath w) l) -> content w' f = content w f) /\
    (exists k, reads (trace w') = reads (trace w) ++ firstn k l) /\
    (forall e, r = Raise e ->
               exists out line, print_raises w out line = Some e).
Proof.
  induction l as [|q l IH]; intros n w.
  - exists (Ok n), w. cbn. split; [reflexivity|].
    split; [apply later_refl|]. split; [auto|]. split; [|discriminate].
    exists 0. now rewrite app_nil_r.
  - rewrite for_each_cons.
    destruct (fix_file_step q w) as (r & w1 & -> & Hl1 & Hr1 & Hf1 & Hcase).
    destruct r as [[|]|e].
    + destruct (print_step (fixed_line q) w1)
        as (r2 & w2 & -> & Hl2 & Hc2 & Ht2 & Hcase2).
      destruct r2 as [[]|e].
      * destruct (IH (n + 1) w2) as (r & w' & -> & Hl' & Hf' & [k Hk] & He').
        assert (Hl : later w w2) by (eapply later_trans; eassumption).
        exists r, w'. split; [reflexivity|].
        split; [eapply later_trans; eassumption|]. split; [|split].
        -- intros f Hf. destruct Hl as (_ & Hp & _). rewrite Hp in Hf'.
           rewrite Hf', Hc2 by (intros ?; apply Hf; now right).
           apply Hf1. intros ->. apply Hf. now left.
        -- exists (S k). rewrite Hk, Ht2, Hr1, <- app_assoc. reflexivity.
        -- intros e He. eapply later_raises; [exact Hl|]. now apply He'.
      * destruct Hcase2 as [-> Hp].
        exists (Raise e), w1. split; [reflexivity|]. split; [exact Hl1|].
        split; [|split].
        -- intros f Hf. apply Hf1. intros ->. apply Hf. now left.
        -- exists 1. rewrite Hr1. reflexivity.
        -- intros e' He'. injection He' as <-.
           eapply later_raises; [exact Hl1|]. eauto.
    + destruct (IH n w1) as (r & w' & -> & Hl' & Hf' & [k Hk] & He').
      exists r, w'. split; [reflexivity|].
      split; [eapply later_trans; eassumption|]. split; [|split].
      * intros f Hf. destruct Hl1 as (_ & Hp & _). rewrite Hp in Hf'.
        rewrite Hf' by (intros ?; apply Hf; now right).
        apply Hf1. intros ->. apply Hf. now left.
      * exists (S k). rewrite Hk, Hr1, <- app_assoc. reflexivity.
      * intros e He. eapply later_raises; [exact Hl1|]. now apply He'.
    + destruct Hcase as [_ Hp].
      exists (Raise e), w1. split; [reflexivity|]. split; [exact Hl1|].
      split; [|split].
      * intros f Hf. apply Hf1. intros ->. apply Hf. now left.
      * exists 1. rewrite Hr1. reflexivity.
      * intros e' He'. injection He' as <-. exact Hp.
Qed.

Lemma fixable_ext (w w' : world) (p : path) :
  files w' p = files w p ->
  fixable new_content w' p = fixable new_content w p.
Proof. unfold fixable. now intros ->. Qed.

(** The loop on a standard output that takes every line: every document
    of the list is read, in order, whatever happened to the documents
    before it, and every failure of a read is printed.  When the listed
    paths name distinct files, every failure of a write is printed, a
    document that raises nothing ends up with its rewritten text, and the
    count grows by the number of fixable documents, each of which has its
    line. *)
Lemma for_each_run : forall (l : list path) (n : nat) (w : world),
  stdout_ok w ->
  exists n' w',
    for_each new_content l n w = (Ok n', w') /\
    n <= n' <= n + length l /\
    later w w' /\
    reads (trace w') = reads (trace w) ++ l /\
    (forall p e, In p l -> read_exn (files w p) = Some e ->
                 In (error_line p e) (stdout w')) /\
    (distinct_files w l ->
     (forall p e, In p l -> read_exn (files w p) = None ->
                  new_content (data (files w p)) <> data (files w p) ->
                  write_exn (files w p) = Some e ->
                  In (error_line p e) (stdout w')) /\
     (forall p, In p l ->
                read_exn (files w p) = None -> write_exn (files w p) = None ->
                data (files w' p) = new_content (data (files w p))) /\
     n' = n + length (filter (fixable new_content w) l) /\
     (forall p, In p l -> fixable new_content w p = true ->
                In (fixed_line p) (stdout w'))).
Proof.
  induction l as [|q l IH]; intros n w Hok.
  - exists n, w. cbn. rewrite app_nil_r.
    repeat split; auto using later_refl; try lia; contradiction.
  - rewrite for_each_cons.
    destruct (fix_file_step q w) as (r & w1 & -> & Hl1 & Hr1 & Hf1 & Hcase).
    destruct r as [b|e].
    2:{ destruct Hcase as (_ & out & line & Hp). now rewrite Hok in Hp. }
    destruct Hcase as (Hb & _ & Hre & Hwe & Hdata).
    assert (Hok1 : stdout_ok w1) by (eapply later_stdout_ok; eassumption).
    assert (exists m w2,
              (if b then
                 match print (fixed_line q) w1 with
                 | (Ok _, w2) => for_each new_content l (n + 1) w2
                 | (Raise e, w2) => (Raise e, w2)
                 end
               else for_each new_content l n w1)
              = for_each new_content l m w2 /\
              m = n + (if b then 1 else 0) /\
              later w1 w2 /\ trace w2 = trace w1 /\ content w2 = content w1 /\
              (b = true -> In (fixed_line q) (stdout w2)))
      as (m & w2 & Hstep & Hm & Hl2 & Ht2 & Hc2 & Hline).
    { destruct b.
      - rewrite print_ok by assumption.
        exists (n + 1), (printed w1 (fixed_line q)).
        repeat split; auto.
        + cbn. intros x Hx. apply in_or_app. now left.
        + intros _. cbn. apply in_or_app. right. now left.
      - exists n, w1. repeat split; auto. discriminate. }
    assert (Hl : later w w2) by (eapply later_trans; eassumption).
    assert (Hok2 : stdout_ok w2) by (eapply later_stdout_ok; eassumption).
    destruct (IH m w2 Hok2)
      as (n' & w' & E & Hn' & Hl' & Hreads' & Hre' & Hdist').
    destruct (for_each_gen l m w2) as (r0 & w0 & E0 & _ & Hframe & _).
    rewrite E in E0. injection E0 as <- <-.
    exists n', w'. split.
    { destruct b; rewrite <- E, <- Hstep; reflexivity. }
    split; [destruct b; simpl; lia|].
    split; [eapply later_trans; eassumption|].
    split; [rewrite Hreads', Ht2, Hr1, <- app_assoc; reflexivity|].
    pose proof Hl' as (_ & _ & _ & _ & _ & Ho').
    pose proof Hl2 as (_ & _ & _ & _ & _ & Ho2).
    split.
    { intros p e [->|Hp] He.
      - apply Ho', Ho2, Hre, He.
      - apply Hre'; [exact Hp|].
        destruct (later_exns w w2 p Hl) as [-> _]. exact He. }
    intros Hnd. unfold distinct_files in Hnd. cbn [map] in Hnd.
    apply NoDup_cons_iff in Hnd as [Hq Hnd'].
    assert (Hsame : forall p, In p l -> files w2 p = files w p).
    { intros p Hp. apply later_files; [exact Hl|].
      rewrite Hc2. apply Hf1. intros Heq. apply Hq. rewrite <- Heq.
      now apply in_map. }
    destruct Hdist' as (Hwe' & Hdata' & Hcount' & Hlines').
    { eapply later_distinct; [exact Hl|exact Hnd']. }
    assert (Hq' : content w' (realpath w q) = content w1 (realpath w q)).
    { rewrite Hframe, Hc2; [reflexivity|].
      destruct Hl as (_ & -> & _). exact Hq. }
    split; [|split; [|split]].
    + intros p e [->|Hp] Hr Hc He.
      * apply Ho', Ho2. now apply Hwe.
      * apply Hwe'; try assumption; rewrite ?(Hsame p Hp); assumption.
    + intros p [->|Hp] Hr Hw.
      * rewrite <- Hdata by assumption.
        assert (Hl1' : later w1 w') by
          (eapply later_trans; [exact Hl2|exact Hl']).
        destruct Hl1 as (_ & Hp1 & _).
        rewrite (later_files w1 w' p Hl1'); [reflexivity|].
        rewrite Hp1. exact Hq'.
      * rewrite Hdata' by (try assumption; rewrite (Hsame p Hp); assumption).
        now rewrite (Hsame p Hp).
    + rewrite Hcount', Hm. cbn [filter]. rewrite <- Hb.
      rewrite (filter_ext_in (fixable new_content w2) (fixable new_content w)).
      * destruct b; cbn [length]; lia.
      * intros p Hp. apply fixable_ext. now apply Hsame.
    + intros p [->|Hp] Hfix.
      * apply Ho', Hline. congruence.
      * apply Hlines'; [exact Hp|].
        rewrite <- Hfix. apply fixable_ext. now apply Hsame.
Qed.

(** ** The driver *)


Lemma main_with_docs (w : world) (l : list path) :
  docs w = Some l -> stdout_ok w ->
  exists n w',
    main new_content banner w = (Ok tt, w') /\
    n <= length l /\
    last (stdout w') [] = summary_line n /\
    later w w' /\
    reads (trace w') = reads (trace w) ++ l /\
    (forall p e, In p l -> read_exn (files w p) = Some e ->
                 In (error_line p e) (stdout w')) /\
    (distinct_files w l ->
     (forall p e, In p l -> read_exn (files w p) = None ->
                  new_content (data (files w p)) <> data (files w p) ->
                  write_exn (files w p) = Some e ->
                  In (error_line p e) (stdout w')) /\
     (forall p, In p l ->
                read_exn (files w p) = None -> write_exn (files w p) = None ->
                data (files w' p) = new_content (data (files w p))) /\
     n = length (filter (fixable new_content w) l) /\
     (forall p, In p l -> fixable new_content w p = true ->
                In (fixed_line p) (stdout w'))).
Proof.
  intros Hd Hok. unfold main. rewrite Hd.
  set (A := py "Found " ++ str_of_nat (length l) ++ py " markdown files").
  set (w0 := printed (printed w A) (LF :: banner)).
  assert (Hl0 : later w w0).
  { eapply later_trans; apply later_printed. }
  assert (Hok0 : stdout_ok w0) by (eapply later_stdout_ok; eassumption).
  destruct (for_each_run l 0 w0 Hok0)
    as (n & w' & E & Hn & Hl' & Hreads & Hre & Hdist).
  assert (Hok' : stdout_ok w') by (eapply later_stdout_ok; eassumption).
  exists n. eexists. split.
  { etransitivity; [apply bind_ok; now apply print_ok|].
    etransitivity;
      [apply bind_ok; apply print_ok; eapply later_stdout_ok;
       [apply later_printed|exact Hok]|].
    etransitivity; [apply bind_ok; exact E|]. now apply print_ok. }
  split; [lia|]. split; [apply last_last|].
  split.
  { eapply later_trans; [exact Hl0|].
    eapply later_trans; [exact Hl'|apply later_printed]. }
  split; [exact Hreads|].
  split.
  { intros p e Hp He. apply in_or_app. left. now apply Hre. }
  intros Hnd. destruct Hdist as (Hwe & Hdata & Hcount & Hlines);
    [exact Hnd|].
  split; [|split; [|split]].
  - intros p e Hp Hr Hc He. apply in_or_app. left. now apply Hwe.
  - intros p Hp Hr Hw. now apply Hdata.
  - exact Hcount.
  - intros p Hp Hfix. apply in_or_app. left. now apply Hlines.
Qed.


(** ** Documents that the pass leaves as they are *)

Lemma keeps_bind {A B} (p : path) (c : io A) (k : A -> io B) :
  keeps new_content p c -> (forall a, keeps new_content p (k a)) ->
  keeps new_content p (bind c k).
Proof.
  intros Hc Hk w Hu. unfold bind.
  destruct (Hc w Hu) as [Ht Hf].
  destruct (c w) as [[a|e] w1]; cbn [snd] in *; [|now split].
  destruct (Hk a w1) as [Ht' Hf']; [now rewrite Hf|].
  split; congruence.
Qed.

Lemma keeps_ret {A} (p : path) (a : A) : keeps new_content p (ret a).
Proof. intros w _. now split. Qed.

Lemma keeps_print (p : path) (line : str) : keeps new_content p (print line).
Proof.
  intros w _. unfold print.
  now destruct (print_raises w (stdout w) line).
Qed.

Lemma str_eqb_sym (a b : str) : str_eqb a b = str_eqb b a.
Proof.
  revert b. induction a as [|x a IH]; intros [|y b]; simpl; try reflexivity.
  now rewrite N.eqb_sym, IH.
Qed.

(** A document that the pass leaves as it is, is not written and keeps its
    text while any document is updated: a path that names the same file
    shows the same text and is left alone as well. *)
Lemma keeps_fix_file (p q : path) : keeps new_content p (fix_file new_content q).
Proof.
  intros w Hc. rewrite fix_file_cases.
  assert (Hq : str_eqb (new_content (data (files w q))) (data (files w q))
               = false -> realpath w q <> realpath w p).
  { intros Hne Heq. cbn [files data] in Hne, Hc. rewrite Heq, Hc in Hne.
    now rewrite str_eqb_refl in Hne. }
  assert (Hlog : forall e evs,
            writes_to p evs = [] ->
            writes_to p (trace (snd (logged q e (traced w evs))))
            = writes_to p (trace w) /\
            files (snd (logged q e (traced w evs))) p = files w p).
  { intros e evs Hev. rewrite logged_cases.
    destruct (print_raises _ _ _); cbn [snd printed traced trace];
      rewrite writes_to_app, Hev, app_nil_r; now split. }
  destruct (read_exn (files w q)); [now apply Hlog|].
  cbv zeta. destruct (str_eqb _ _) eqn:E.
  { cbn [snd traced trace]. rewrite writes_to_app, app_nil_r. now split. }
  specialize (Hq eq_refl).
  assert (Hqp : str_eqb q p = false).
  { apply str_eqb_neq. intros ->. now apply Hq. }
  assert (Hev : writes_to p
                  [ReadOp q; WriteOp q (new_content (data (files w q)))] = []).
  { unfold writes_to. cbn [flat_map app]. now rewrite Hqp. }
  destruct (write_exn (files w q)); [now apply Hlog|].
  cbn [snd store traced trace]. rewrite writes_to_app, Hev, app_nil_r.
  split; [reflexivity|]. unfold files. cbn.
  assert (str_eqb (realpath w p) (realpath w q) = false) as ->; [|reflexivity].
  apply str_eqb_neq. congruence.
Qed.

Lemma keeps_for_each (p : path) : forall (l : list path) (n : nat),
  keeps new_content p (for_each new_content l n).
Proof.
  induction l as [|q l IH]; intros n; [apply keeps_ret|].
  cbn [for_each]. apply keeps_bind; [apply keeps_fix_file|].
  intros [|]; [|apply IH].
  apply keeps_bind; [apply keeps_print|]. intros _. apply IH.
Qed.

Lemma main_keeps (w : world) (p : path) :
  new_content (data (files w p)) = data (files w p) ->
  writes_to p (trace (snd (main new_content banner w)))
  = writes_to p (trace w) /\
  files (snd (main new_content banner w)) p = files w p.
Proof.
  intros Hc. unfold main. destruct (docs w) as [l|].
  2:{ now apply keeps_print. }
  revert w Hc.
  change (keeps new_content p
            (print (py "Found " ++ str_of_nat (length l)
                      ++ py " markdown files") ;;
             print (LF :: banner) ;;
             fixed_count <- for_each new_content l 0 ;;
             print (LF :: py "Fixed " ++ str_of_nat fixed_count
                      ++ py " files"))).
  apply keeps_bind; [apply keeps_print|]. intros _.
  apply keeps_bind; [apply keeps_print|]. intros _.
  apply keeps_bind; [apply keeps_for_each|]. intros n.
  apply keeps_print.
Qed.

End ScriptFacts.

(** * The claims *)

(** C1 (as the scripts have it).  In the extension-appending pass a target
    that starts with [http://], [https://], [ftp://], [file://],
    [mailto:] or a hash sign, that ends with [.md] or with [.md] and a
    bare hash sign, or that is the bare file name [SECURITY] or [RELEASE],
    is returned as the match stood.  In the template pass the helper
    expression is always removed: the replacement of a match of its
    pattern is never the match.  When the unwrapped path starts with
    [http://], [https://] or a hash sign, or ends with [.md], the
    replacement is the link to that path without its leading slashes, with
    the fragment and with no extension added. *)
Theorem excluded_targets_kept (m : rmatch) :
  (excluded_target (group2 m) = true -> AddMd.replace_link m = group0 m) /\
  (forall s rest,
     FixJekyll.match_at s = Some (m, rest) ->
     FixJekyll.replace_link m <> group0 m) /\
  (template_excluded (group2 m) = true ->
   FixJekyll.replace_link m
   = link (group1 m)
       (lstrip (py "/") (group2 m) ++ fragment_text (group3 m))).
Proof.
  split; [|split].
  - apply add_md_excluded.
  - intros s rest H. exact (fix_jekyll_never_verbatim s m rest H).
  - intros H. rewrite fix_jekyll_replace.
    now rewrite template_excluded_no_extension.
Qed.

Lemma excluded_targets_kept_witness :
  AddMd.replace_link api_match = py "[API](https://example.com/api)" /\
  FixJekyll.replace_link api_template_match <> group0 api_template_match /\
  FixJekyll.replace_link api_template_match
  = py "[API](https://example.com/api)".
Proof.
  split; [|split].
  - apply (proj1 (excluded_targets_kept api_match)). reflexivity.
  - apply (proj1 (proj2 (excluded_targets_kept api_template_match))
             (group0 api_template_match) []).
    vm_compute. reflexivity.
  - apply (proj2 (proj2 (excluded_targets_kept api_template_match))).
    reflexivity.
Defined.

(** The third and the fifth scenario of the specification, through
    [re.sub]. *)
Example exclusion_scenarios :
  AddMd.new_content (py "[API](https://example.com/api) [Policy](SECURITY)")
  = py "[API](https://example.com/api) [Policy](SECURITY)".
Proof. vm_compute. reflexivity. Qed.

(** C1 fails as stated: the template pass matches a link whose unwrapped
    path starts with [https://], and what it returns is not the match; a
    wrapped [mailto:] target even receives the extension. *)
Lemma template_target_not_kept :
  FixJekyll.match_at (group0 api_template_match)
  = Some (api_template_match, []) /\
  startswith (py "https://") (group2 api_template_match) = true /\
  FixJekyll.replace_link api_template_match <> group0 api_template_match /\
  FixJekyll.new_content
    (py "[Mail]({{ 'mailto:docs@example.com' | relative_url }})")
  = py "[Mail](mailto:docs@example.com.md)".
Proof.
  split; [vm_compute; reflexivity|]. split; [reflexivity|].
  split; [vm_compute; discriminate|vm_compute; reflexivity].
Qed.

(** C2.  The extension-appending pass changes its own output: the link
    [[Guide](setup#install)] becomes [[Guide](setup.md#install)], and a
    second pass appends the extension once more. *)
Theorem add_md_second_pass_changes :
  AddMd.new_content (py "[Guide](setup#install)")
  = py "[Guide](setup.md#install)" /\
  AddMd.new_content (AddMd.new_content (py "[Guide](setup#install)"))
  = py "[Guide](setup.md.md#install)".
Proof. split; vm_compute; reflexivity. Qed.

(** C7.  For each of the three patterns, a match is a link around group 1,
    and its replacement is a link around the same display text. *)
Theorem display_text_kept (s : str) (m : rmatch) (rest : str) :
  (AddMd.match_at s = Some (m, rest) ->
   exists target target',
     group0 m = link (group1 m) target /\
     AddMd.replace_link m = link (group1 m) target') /\
  (FixRelative.match_at s = Some (m, rest) ->
   exists target target',
     group0 m = link (group1 m) target /\
     FixRelative.replace_link m = link (group1 m) target') /\
  (FixJekyll.match_at s = Some (m, rest) ->
   exists target target',
     group0 m = link (group1 m) target /\
     FixJekyll.replace_link m = link (group1 m) target').
Proof.
  repeat split.
  - intros H. apply add_md_match_at_sound in H as (_ & H0 & _).
    destruct (add_md_replace_cases m) as [E|[t E]].
    + exists (group2 m), (group2 m). split; congruence.
    + exists (group2 m), t. now split.
  - unfold FixRelative.match_at. intros H.
    destruct (FixRelative.pattern s) as [[[g1 g2] r]|] eqn:E; [|discriminate].
    injection H as <- <-.
    apply fix_relative_pattern_sound in E as (-> & _).
    cbn [group0 group1]. rewrite consumed_app.
    now exists (py "commands/" ++ g2), g2.
  - intros H. apply fix_jekyll_match_at_sound in H as (t & _ & H0).
    eexists t, _. split; [exact H0|apply fix_jekyll_replace].
Qed.

Lemma display_text_kept_witness :
  exists target',
    AddMd.replace_link
      (mk_match (py "[the *guide*](setup#install)") (py "the *guide*")
         (py "setup#install") None)
    = link (py "the *guide*") target'.
Proof.
  destruct (proj1 (display_text_kept
                     (py "[the *guide*](setup#install) and more")
                     (mk_match (py "[the *guide*](setup#install)")
                        (py "the *guide*") (py "setup#install") None)
                     (py " and more")))
    as (_ & target' & _ & E).
  - vm_compute. reflexivity.
  - exists target'. exact E.
Defined.

(** C10.  In the extension-appending pass the deny-list is compared with
    the upper-cased path part: whenever the part of the target in front of
    a fragment upper-cases to [SECURITY] or [RELEASE], in any mixture of
    cases, the match is returned as it stood. *)
Theorem denylist_ignores_case (m : rmatch) :
  upper (path_part (group2 m)) = py "SECURITY" \/
  upper (path_part (group2 m)) = py "RELEASE" ->
  AddMd.replace_link m = group0 m.
Proof.
  intros H. apply add_md_denylisted.
  destruct H as [-> | ->]; reflexivity.
Qed.

Lemma denylist_ignores_case_witness :
  AddMd.replace_link policy_match = py "[Policy](Security#reporting)".
Proof.
  apply (denylist_ignores_case policy_match). left. reflexivity.
Defined.

(** C3 (as the script has it).  A link whose target is a quoted path piped
    through [relative_url], with or without a fragment, is matched where
    it stands with the display text as group 1 and the path as group 2;
    with the replacement in its place the text reads: the link to the
    path without any of its leading slashes, with [.md] appended unless
    the path has it or starts with [http] or a hash sign, and with the
    fragment behind a hash sign, followed by the text that followed. *)
Theorem template_link_rewritten
  (x : wrapper) (g1 p : str) (fragment : option str) (rest : str) :
  wrapper_ok x -> display_text g1 -> template_path p -> fragment_ok fragment ->
  exists m rest',
    FixJekyll.match_at (link g1 (helper x p ++ fragment_text fragment) ++ rest)
    = Some (m, rest') /\
    group1 m = g1 /\ group2 m = p /\
    FixJekyll.replace_link m ++ rest'
    = link g1 (FixJekyll.add_extension (lstrip (py "/") p)
               ++ fragment_text fragment) ++ rest.
Proof.
  intros Hx Hg1 Hp Hf.
  destruct (fix_jekyll_pattern_link x g1 p fragment rest Hx Hg1 Hp Hf)
    as (g3 & rest' & E & Eq).
  unfold FixJekyll.match_at. rewrite E.
  eexists _, rest'. split; [reflexivity|].
  rewrite fix_jekyll_replace. cbn [group1 group2 group3].
  repeat split. unfold link. rewrite <- !app_assoc.
  do 4 f_equal. exact Eq.
Qed.

Lemma template_link_rewritten_witness :
  exists m rest',
    FixJekyll.match_at (py "[Guide]({{ '/setup' | relative_url }}#install)")
    = Some (m, rest') /\
    group1 m = py "Guide" /\ group2 m = py "/setup" /\
    FixJekyll.replace_link m ++ rest' = py "[Guide](setup.md#install)".
Proof.
  apply (template_link_rewritten usual (py "Guide") (py "/setup")
           (Some (py "install")) []).
  - repeat split; reflexivity.
  - split; [discriminate|reflexivity].
  - split; [discriminate|reflexivity].
  - split; [discriminate|reflexivity].
Defined.

(** The second scenario of the specification, through [re.sub]. *)
Example template_scenario :
  FixJekyll.new_content (py "[Guide]({{ '/setup' | relative_url }}#install)")
  = py "[Guide](setup.md#install)".
Proof. vm_compute. reflexivity. Qed.

(** C3 fails as stated: every leading slash goes, not one, and a path that
    starts with [http] gets no extension. *)
Lemma template_rewrite_differs :
  FixJekyll.new_content (py "[Guide]({{ '//setup' | relative_url }})")
  = py "[Guide](setup.md)" /\
  spec_template_rewrite (py "Guide") (py "//setup") None
  = py "[Guide](/setup.md)" /\
  FixJekyll.new_content (py "[Guide]({{ '//setup' | relative_url }})")
  <> spec_template_rewrite (py "Guide") (py "//setup") None /\
  FixJekyll.new_content (py "[API]({{ '/http-api' | relative_url }})")
  = py "[API](http-api)" /\
  FixJekyll.new_content (py "[API]({{ '/http-api' | relative_url }})")
  <> spec_template_rewrite (py "API") (py "/http-api") None.
Proof.
  repeat split; try (vm_compute; reflexivity); vm_compute; discriminate.
Qed.




Ltac no_bracket :=
  let H := fresh in intros H; vm_compute in H; intuition discriminate.

(** C5 (as the scripts have it).  The scan runs over the whole text and
    knows no code regions: a link inside an inline code span or a fenced
    code block is matched and replaced as it is anywhere else, and the
    scan goes on behind the code region. *)
Theorem code_regions_are_scanned
  (g1 g2 : str) (x : wrapper) (p : str) (rest : str) :
  display_text g1 -> plain_target g2 -> wrapper_ok x -> template_path p ->
  AddMd.new_content (code_span (link g1 g2) ++ rest)
  = code_span (AddMd.replace_link (mk_match (link g1 g2) g1 g2 None))
    ++ AddMd.new_content rest /\
  AddMd.new_content (fenced_block (link g1 g2) ++ rest)
  = fenced_block (AddMd.replace_link (mk_match (link g1 g2) g1 g2 None))
    ++ AddMd.new_content rest /\
  FixJekyll.new_content (code_span (link g1 (helper x p)) ++ rest)
  = code_span (link g1 (FixJekyll.add_extension (lstrip (py "/") p)))
    ++ FixJekyll.new_content rest /\
  FixJekyll.new_content (fenced_block (link g1 (helper x p)) ++ rest)
  = fenced_block (link g1 (FixJekyll.add_extension (lstrip (py "/") p)))
    ++ FixJekyll.new_content rest.
Proof.
  intros Hg1 Hg2 Hx Hp. unfold code_span, fenced_block.
  repeat rewrite <- app_assoc. repeat split.
  - rewrite add_md_copy by no_bracket. rewrite add_md_link by assumption.
    now rewrite add_md_copy by no_bracket.
  - rewrite add_md_copy by no_bracket. rewrite add_md_copy by no_bracket.
    rewrite add_md_link by assumption.
    rewrite add_md_copy by no_bracket. now rewrite add_md_copy by no_bracket.
  - rewrite fix_jekyll_copy by no_bracket.
    rewrite fix_jekyll_plain_link by assumption.
    now rewrite fix_jekyll_copy by no_bracket.
  - rewrite fix_jekyll_copy by no_bracket.
    rewrite fix_jekyll_copy by no_bracket.
    rewrite fix_jekyll_plain_link by assumption.
    rewrite fix_jekyll_copy by no_bracket.
    now rewrite fix_jekyll_copy by no_bracket.
Qed.

Lemma code_regions_are_scanned_witness :
  AddMd.new_content (py "`[label](target)` is the syntax")
  = py "`[label](target.md)` is the syntax" /\
  FixJekyll.new_content
    (fenced_block (py "[Guide]({{ '/setup' | relative_url }})"))
  = fenced_block (py "[Guide](setup.md)").
Proof.
  destruct (code_regions_are_scanned (py "label") (py "target") usual
              (py "/setup") (py " is the syntax")) as (E & _).
  - split; [discriminate|reflexivity].
  - split; [discriminate|reflexivity].
  - repeat split; reflexivity.
  - split; [discriminate|reflexivity].
  - split; [exact E|].
    destruct (code_regions_are_scanned (py "Guide") (py "target") usual
                (py "/setup") []) as (_ & _ & _ & E').
    + split; [discriminate|reflexivity].
    + split; [discriminate|reflexivity].
    + repeat split; reflexivity.
    + split; [discriminate|reflexivity].
    + rewrite !app_nil_r in E'. exact E'.
Defined.

(** C5 fails as stated: link syntax inside an inline code span and inside
    a fenced code block is rewritten. *)
Lemma code_sample_rewritten :
  AddMd.new_content (py "`[label](target)`") = py "`[label](target.md)`" /\
  AddMd.new_content (py "`[label](target)`") <> py "`[label](target)`" /\
  FixJekyll.new_content
    (fenced_block (py "[Guide]({{ '/setup' | relative_url }})"))
  <> fenced_block (py "[Guide]({{ '/setup' | relative_url }})").
Proof.
  repeat split; try (vm_compute; reflexivity); vm_compute; discriminate.
Qed.

(** C6 (as the script has it).  Every match of the pattern of
    fix-relative-links.py is a link whose target is [commands/] followed
    by group 2, which is not empty, and its replacement is the link to
    group 2 alone, copied as it stands, fragment included.  The scan of a
    text: where a link starts whose display text holds no closing bracket
    and whose target is [commands/] followed by at least one character
    and holds no closing parenthesis, the link is replaced so and the scan
    goes on behind it; where no such link starts, one character is copied
    and the scan goes on behind it.  A document whose path goes through
    [commands] and that raises nothing is written back with the text so
    scanned whenever that differs from its own. *)
Theorem commands_prefix_removed (w : world) (dir name : str) :
  (forall s m r,
     FixRelative.match_at s = Some (m, r) ->
     group0 m = link (group1 m) (py "commands/" ++ group2 m) /\
     nonempty (group2 m) /\
     FixRelative.replace_link m = link (group1 m) (group2 m)) /\
  (forall g1 g2 rest,
     display_text g1 -> plain_target g2 ->
     FixRelative.new_content (link g1 (py "commands/" ++ g2) ++ rest)
     = link g1 g2 ++ FixRelative.new_content rest) /\
  (forall c s,
     (forall g1 g2 rest,
        display_text g1 -> plain_target g2 ->
        c :: s <> link g1 (py "commands/" ++ g2) ++ rest) ->
     FixRelative.new_content (c :: s) = c :: FixRelative.new_content s) /\
  (read_exn (files w (dir ++ py "commands" ++ name)) = None ->
   write_exn (files w (dir ++ py "commands" ++ name)) = None ->
   FixRelative.new_content (data (files w (dir ++ py "commands" ++ name)))
   <> data (files w (dir ++ py "commands" ++ name)) ->
   exists w',
     FixRelative.fix_links_in_file (dir ++ py "commands" ++ name) w
     = (Ok true, w') /\
     data (files w' (dir ++ py "commands" ++ name))
     = FixRelative.new_content
         (data (files w (dir ++ py "commands" ++ name)))).
Proof.
  split; [|split; [|split]].
  - unfold FixRelative.match_at. intros s m r H.
    destruct (FixRelative.pattern s) as [[[a1 a2] r']|] eqn:E; [|discriminate].
    injection H as <- <-.
    apply fix_relative_pattern_sound in E as (-> & _ & Hne & _).
    cbn [group0 group1 group2]. now rewrite consumed_app.
  - apply fix_relative_link.
  - intros c s H. unfold FixRelative.new_content. apply re_sub_skip.
    unfold FixRelative.match_at.
    destruct (FixRelative.pattern (c :: s)) as [[[g1 g2] rest]|] eqn:E;
      [|reflexivity].
    apply fix_relative_pattern_sound in E as (E & Hg1 & Hg2).
    now destruct (H g1 g2 rest Hg1 Hg2).
  - intros Hr Hw Hc. eexists. split.
    + apply fix_relative_fix_cases; try assumption. apply str_in_app.
    + cbn. now rewrite str_eqb_refl.
Qed.

Lemma commands_prefix_removed_witness :
  exists w',
    FixRelative.fix_links_in_file (py "docs/commands/build.md") commands_world
    = (Ok true, w') /\
    data (files w' (py "docs/commands/build.md"))
    = py "See [one](other.md) and [See](build.md)".
Proof.
  destruct (proj2 (proj2 (proj2 (commands_prefix_removed commands_world
                                   (py "docs/") (py "/build.md")))))
    as (w' & E & Hd).
  - reflexivity.
  - reflexivity.
  - vm_compute. discriminate.
  - exists w'. split; [exact E|].
    etransitivity; [exact Hd|]. vm_compute. reflexivity.
Defined.

(** The fourth scenario of the specification, through [re.sub]. *)
Example commands_scenario :
  FixRelative.new_content (py "[See](commands/build.md)") = py "[See](build.md)".
Proof. vm_compute. reflexivity. Qed.

(** C6 fails as stated: a link whose display text holds a closing bracket,
    as the link around an image does, keeps the prefix; and what is left
    behind the prefix is whatever followed it, an absolute path here. *)
Lemma badge_link_keeps_prefix :
  FixRelative.new_content (py "[![logo](logo.png)](commands/build.md)")
  = py "[![logo](logo.png)](commands/build.md)" /\
  FixRelative.new_content (py "[Hosts](commands//etc/hosts)")
  = py "[Hosts](/etc/hosts)" /\
  startswith (py "/") (py "/etc/hosts") = true.
Proof. repeat split; vm_compute; reflexivity. Qed.




(** C9.  A document that can be read and whose text the pass leaves as it
    is: the update returns [False] having read the file and done nothing
    else, and over a whole run nothing is ever written to it and its text
    stays.  A document whose text the pass changes: one write follows the
    read, and it carries the whole new text.  This holds for the
    extension-appending pass and for the template pass. *)
Theorem unchanged_document_not_written (w : world) (p : path) :
  read_exn (files w p) = None ->
  (AddMd.new_content (data (files w p)) = data (files w p) ->
   AddMd.fix_links_in_file p w
   = (Ok false, traced w [ReadOp p]) /\
   writes_to p (trace (snd (AddMd.main w))) = writes_to p (trace w) /\
   files (snd (AddMd.main w)) p = files w p) /\
  (AddMd.new_content (data (files w p)) <> data (files w p) ->
   trace (snd (AddMd.fix_links_in_file p w))
   = trace w ++ [ReadOp p; WriteOp p (AddMd.new_content (data (files w p)))]) /\
  (FixJekyll.new_content (data (files w p)) = data (files w p) ->
   FixJekyll.fix_file p w
   = (Ok false, traced w [ReadOp p]) /\
   writes_to p (trace (snd (FixJekyll.main w))) = writes_to p (trace w) /\
   files (snd (FixJekyll.main w)) p = files w p) /\
  (FixJekyll.new_content (data (files w p)) <> data (files w p) ->
   trace (snd (FixJekyll.fix_file p w))
   = trace w ++ [ReadOp p; WriteOp p (FixJekyll.new_content (data (files w p)))]).
Proof.
  intros Hr. unfold AddMd.fix_links_in_file, FixJekyll.fix_file.
  repeat split.
  - now apply fix_file_unchanged.
  - now apply main_keeps.
  - now apply main_keeps.
  - now apply fix_file_changed.
  - now apply fix_file_unchanged.
  - now apply main_keeps.
  - now apply main_keeps.
  - now apply fix_file_changed.
Qed.

Lemma unchanged_document_not_written_witness :
  AddMd.fix_links_in_file (py "docs/api.md") sample_world
  = (Ok false, traced sample_world [ReadOp (py "docs/api.md")]) /\
  writes_to (py "docs/api.md") (trace (snd (AddMd.main sample_world))) = [] /\
  trace (snd (AddMd.fix_links_in_file (py "docs/guide.md") sample_world))
  = [ReadOp (py "docs/guide.md");
     WriteOp (py "docs/guide.md") (py "See [Guide](setup.md).")].
Proof.
  destruct (unchanged_document_not_written sample_world (py "docs/api.md")
              eq_refl) as (H & _).
  destruct H as (E & Hw & _); [vm_compute; reflexivity|].
  split; [exact E|]. split; [exact Hw|].
  destruct (unchanged_document_not_written sample_world (py "docs/guide.md")
              eq_refl) as (_ & H & _).
  rewrite H; [vm_compute; reflexivity|vm_compute; discriminate].
Defined.

(** * Further properties of the scripts *)

(** ** What the rewriter of add-md-extensions.py does to a target *)

Lemma split_once_spec (sep : char) (s : str) :
  char_in sep s = true ->
  s = fst (split_once sep s) ++ sep :: snd (split_once sep s) /\
  char_in sep (fst (split_once sep s)) = false.
Proof.
  unfold char_in. induction s as [|c s IH]; simpl; [discriminate|].
  destruct (N.eqb c sep) eqn:E.
  - apply N.eqb_eq in E. subst c. simpl. auto.
  - rewrite (N.eqb_sym sep c), E. simpl. intros H.
    destruct (IH H) as [Hs Hf].
    destruct (split_once sep s) as [a b]. simpl in *.
    rewrite (N.eqb_sym sep c), E, Hf. split; [now rewrite <- Hs|reflexivity].
Qed.

Lemma target_parts (url : str) :
  url = path_part url ++ fragment_part url /\
  char_in HASH (path_part url) = false.
Proof.
  unfold path_part, fragment_part.
  destruct (char_in HASH url) eqn:E.
  - now apply split_once_spec.
  - now rewrite app_nil_r.
Qed.

(** X1.  The rewriter of add-md-extensions.py changes a link in one way
    only.  A target is its path part, which holds no hash sign, followed
    by its fragment part, which is empty or starts at the first hash sign;
    the replacement is the match as it stood, or the link with the same
    display text whose target is the path part, [.md], and the fragment
    part, character for character. *)
Theorem add_md_inserts_extension (m : rmatch) :
  group2 m = path_part (group2 m) ++ fragment_part (group2 m) /\
  char_in HASH (path_part (group2 m)) = false /\
  (AddMd.replace_link m = group0 m \/
   AddMd.replace_link m
   = link (group1 m)
       (path_part (group2 m) ++ py ".md" ++ fragment_part (group2 m))).
Proof.
  destruct (target_parts (group2 m)) as [Hsplit Hpath].
  split; [exact Hsplit|]. split; [exact Hpath|].
  unfold AddMd.replace_link, path_part, fragment_part, link.
  destruct (_ || _ || _ || _ || _ || _); [now left|].
  destruct (_ || _); [now left|].
  destruct (char_in HASH (group2 m)).
  - destruct (split_once HASH (group2 m)) as [p anchor]. cbn [fst snd].
    destruct p as [|c p]; [now left|].
    destruct (in_list _ _); [now left|]. right. reflexivity.
  - destruct (in_list _ _); [now left|]. right. now rewrite app_nil_r.
Qed.

(** ** Text without link syntax *)

Lemma str_in_tail (sub : str) (c : char) (s : str) :
  str_in sub (c :: s) = false -> str_in sub s = false.
Proof.
  simpl. intros H. now apply orb_false_iff in H as [_ H].
Qed.

Lemma re_sub_without (match_at : str -> option (rmatch * str))
  (repl : rmatch -> str) (sub : str) :
  (forall t m r, match_at t = Some (m, r) -> str_in sub t = true) ->
  forall s, str_in sub s = false -> re_sub match_at repl s = s.
Proof.
  intros Hm. induction s as [|c s IH]; intros H; [reflexivity|].
  rewrite re_sub_skip.
  - f_equal. apply IH. eapply str_in_tail, H.
  - destruct (match_at (c :: s)) as [[m r]|] eqn:E; [|reflexivity].
    apply Hm in E. congruence.
Qed.

(** X3.  A text that nowhere has a closing bracket directly followed by an
    opening parenthesis comes out of the extension-appending pass as it
    went in; so does a text without [](commands/] out of the
    prefix-stripping pass, and a text without a closing bracket, an
    opening parenthesis and two opening braces in a row out of the
    template pass. *)
Theorem text_without_links_unchanged (s : str) :
  (str_in (py "](") s = false -> AddMd.new_content s = s) /\
  (str_in (py "](commands/") s = false -> FixRelative.new_content s = s) /\
  (str_in (py "]({{") s = false -> FixJekyll.new_content s = s).
Proof.
  repeat split; apply re_sub_without; intros t m r H.
  - apply add_md_match_at_sound in H as (-> & _).
    unfold link. rewrite <- !app_assoc, app_assoc. apply str_in_app.
  - unfold FixRelative.match_at in H.
    destruct (FixRelative.pattern t) as [[[g1 g2] r0]|] eqn:E; [|discriminate].
    apply fix_relative_pattern_sound in E as (-> & _).
    unfold link. rewrite <- !app_assoc, app_assoc.
    apply (str_in_app (py "](commands/")).
  - unfold FixJekyll.match_at in H.
    destruct (FixJekyll.pattern t) as [[[[g1 g2] g3] r0]|] eqn:E;
      [|discriminate].
    unfold FixJekyll.pattern in E.
    apply r_lit_sound in E as (s1 & -> & E).
    apply r_plus_sound in E as (a1 & b1 & -> & _ & _ & E).
    apply r_lit_sound in E as (s2 & -> & _).
    rewrite app_assoc. apply str_in_app.
Qed.

Lemma text_without_links_unchanged_witness :
  AddMd.new_content (py "Plain [text] with (parentheses) only.")
  = py "Plain [text] with (parentheses) only." /\
  FixRelative.new_content (py "[Guide](setup.md) stays")
  = py "[Guide](setup.md) stays" /\
  FixJekyll.new_content (py "[Guide](setup.md) stays")
  = py "[Guide](setup.md) stays".
Proof.
  split; [|split].
  - apply (proj1 (text_without_links_unchanged _)). reflexivity.
  - apply (proj1 (proj2 (text_without_links_unchanged _))). reflexivity.
  - apply (proj2 (proj2 (text_without_links_unchanged _))). reflexivity.
Defined.

Lemma add_md_idempotent_without_fragments_witness :
  AddMd.new_content
    (AddMd.new_content (py "See [Guide](/setup) and [Policy](SECURITY)."))
  = AddMd.new_content (py "See [Guide](/setup) and [Policy](SECURITY).").
Proof.
  apply (add_md_idempotent_without_fragments
           (py "See [Guide](/setup) and [Policy](SECURITY).")).
  reflexivity.
Defined.


(** ** One prefix per pass of fix-relative-links.py *)

Lemma prefixes_plain (n : nat) : forallb not_rparen (prefixes n) = true.
Proof.
  induction n as [|n IH]; [reflexivity|].
  unfold prefixes in *. cbn [repeat concat]. now rewrite forallb_app, IH.
Qed.

(** X7.  A pass of fix-relative-links.py takes one prefix [commands/] off
    a target and no more: a target that carries the prefix [n] times
    carries it [n - k] times after [k] passes, so the pass is not
    idempotent on nested prefixes. *)
Theorem one_prefix_per_pass (g1 g2 : str) (k n : nat) :
  display_text g1 -> plain_target g2 -> k <= n ->
  Nat.iter k FixRelative.new_content (link g1 (prefixes n ++ g2))
  = link g1 (prefixes (n - k) ++ g2).
Proof.
  intros Hg1 [Hne Hc]. induction k as [|k IH]; intros Hk.
  - now rewrite Nat.sub_0_r.
  - rewrite Nat.iter_succ, IH by lia.
    replace (n - k) with (S (n - S k)) by lia.
    unfold prefixes at 1. cbn [repeat concat]. fold (prefixes (n - S k)).
    rewrite <- (app_nil_r (link g1 _)), <- app_assoc.
    rewrite fix_relative_link; [now rewrite app_nil_r|assumption|].
    split.
    + intros E. apply app_eq_nil in E as [_ E]. now apply Hne.
    + now rewrite forallb_app, prefixes_plain, Hc.
Qed.

Lemma one_prefix_per_pass_witness :
  FixRelative.new_content (py "[See](commands/commands/build.md)")
  = py "[See](commands/build.md)" /\
  FixRelative.new_content
    (FixRelative.new_content (py "[See](commands/commands/build.md)"))
  = py "[See](build.md)".
Proof.
  split.
  - apply (one_prefix_per_pass (py "See") (py "build.md") 1 2);
      [split; [discriminate|reflexivity]..|lia].
  - apply (one_prefix_per_pass (py "See") (py "build.md") 2 2);
      [split; [discriminate|reflexivity]..|lia].
Defined.

(** ** The targets that fix-jekyll-links.py writes *)

Lemma lstrip_no_slash (u : str) :
  startswith (py "/") (lstrip (py "/") u) = false.
Proof.
  induction u as [|c u IH]; [reflexivity|].
  cbn [lstrip]. destruct (char_in c (py "/")) eqn:E; [exact IH|].
  unfold char_in in E. change (py "/") with [SLASH] in *.
  cbn [existsb] in E. apply orb_false_iff in E as [E _].
  cbn [startswith]. now rewrite N.eqb_sym, E.
Qed.

Lemma lstrip_forallb (q : char -> bool) (chars u : str) :
  forallb q u = true -> forallb q (lstrip chars u) = true.
Proof.
  induction u as [|c u IH]; intros H; [reflexivity|].
  cbn [lstrip]. destruct (char_in c chars); [|exact H].
  apply IH. simpl in H. now apply andb_true_iff in H as [_ H].
Qed.

(** The target with its extension: the stripped path is its beginning. *)
Lemma add_extension_cases (u : str) :
  FixJekyll.add_extension u = u \/ FixJekyll.add_extension u = u ++ py ".md".
Proof. unfold FixJekyll.add_extension. destruct (_ && _ && _); auto. Qed.

Lemma add_extension_relative (u : str) :
  startswith (py "/") u = false ->
  FixJekyll.add_extension u <> [] /\
  startswith (py "/") (FixJekyll.add_extension u) = false.
Proof.
  intros H. destruct u as [|c u]; [split; [discriminate|reflexivity]|].
  destruct (add_extension_cases (c :: u)) as [-> | ->];
    (split; [discriminate|exact H]).
Qed.

(** X8.  Whatever the match, the link that the rewriter of
    fix-jekyll-links.py returns has a target that is not empty and does
    not start with a slash. *)
Theorem template_target_relative (m : rmatch) :
  exists target,
    FixJekyll.replace_link m = link (group1 m) target /\
    target <> [] /\ startswith (py "/") target = false.
Proof.
  rewrite fix_jekyll_replace.
  destruct (add_extension_relative _ (lstrip_no_slash (group2 m)))
    as [Hne Hs].
  eexists. split; [reflexivity|].
  destruct (FixJekyll.add_extension _) as [|c t]; [contradiction|].
  split; [discriminate|exact Hs].
Qed.

Lemma link_inj (g1 a b : str) : link g1 a = link g1 b -> a = b.
Proof.
  unfold link. intros E. do 3 apply app_inv_head in E.
  now apply app_inv_tail in E.
Qed.

(** X9.  [convert_jekyll_link], which nothing calls, and the rewriter that
    [fix_file] uses return the same link exactly when the match carries
    no fragment and its stripped path gets no extension, that is when the
    path ends with [.md] or starts with [http] or a hash sign. *)
Theorem convert_jekyll_link_agrees (m : rmatch) :
  FixJekyll.convert_jekyll_link m = FixJekyll.replace_link m <->
  fragment_text (group3 m) = [] /\
  (endswith (py ".md") (lstrip (py "/") (group2 m))
   || startswith (py "http") (lstrip (py "/") (group2 m))
   || startswith (py "#") (lstrip (py "/") (group2 m))) = true.
Proof.
  rewrite fix_jekyll_replace. unfold FixJekyll.convert_jekyll_link.
  cbv zeta. fold (link (group1 m) (lstrip (py "/") (group2 m))).
  set (u := lstrip (py "/") (group2 m)). set (f := fragment_text (group3 m)).
  assert (Hext : FixJekyll.add_extension u
                 = if endswith (py ".md") u || startswith (py "http") u
                      || startswith (py "#") u
                   then u else u ++ py ".md").
  { unfold FixJekyll.add_extension.
    destruct (endswith _ u), (startswith (py "http") u),
      (startswith (py "#") u); reflexivity. }
  rewrite Hext. destruct (_ || _ || _); split.
  - intros E. apply link_inj in E. rewrite <- (app_nil_r u) in E at 1.
    apply app_inv_head in E. auto.
  - intros [-> _]. now rewrite app_nil_r.
  - intros E. apply link_inj in E. rewrite <- (app_nil_r u) in E at 1.
    rewrite <- app_assoc in E. apply app_inv_head in E. discriminate E.
  - intros [_ H]. discriminate H.
Qed.

(** ** The template pass followed by the extension-appending pass *)

Lemma scheme_ok_excluded (u : str) :
  scheme_ok u = true ->
  excluded_target (FixJekyll.add_extension u) = true.
Proof.
  unfold scheme_ok, FixJekyll.add_extension, excluded_target. intros H.
  destruct (endswith (py ".md") u) eqn:Emd;
    [cbn [negb andb]; rewrite Emd; now rewrite !orb_true_r|].
  destruct (startswith (py "#") u) eqn:Eh;
    [rewrite andb_false_r, Eh; now rewrite !orb_true_r|].
  destruct (startswith (py "http") u) eqn:Ehttp; cbn [negb andb orb] in *.
  - apply orb_true_iff in H as [-> | ->]; [reflexivity|].
    now rewrite orb_true_r.
  - assert (endswith (py ".md") (u ++ py ".md") = true) as ->
      by (apply endswith_iff; now exists u).
    now rewrite !orb_true_r.
Qed.

(** X12.  A template link without a fragment, rewritten by
    fix-jekyll-links.py, is left as it is by add-md-extensions.py, provided
    the stripped path does not start with [http] short of a full
    [http://] or [https://] scheme and the path holds no closing
    parenthesis. *)
Theorem template_then_extension (x : wrapper) (g1 p : str) :
  wrapper_ok x -> display_text g1 -> template_path p ->
  forallb not_rparen p = true ->
  scheme_ok (lstrip (py "/") p) = true ->
  FixJekyll.new_content (link g1 (helper x p))
  = link g1 (FixJekyll.add_extension (lstrip (py "/") p)) /\
  AddMd.new_content (FixJekyll.new_content (link g1 (helper x p)))
  = FixJekyll.new_content (link g1 (helper x p)).
Proof.
  intros Hx Hg1 Hp Hc Hs.
  assert (E : FixJekyll.new_content (link g1 (helper x p))
              = link g1 (FixJekyll.add_extension (lstrip (py "/") p))).
  { rewrite <- (app_nil_r (link g1 (helper x p))).
    rewrite fix_jekyll_plain_link by assumption. apply app_nil_r. }
  split; [exact E|]. rewrite E.
  set (t := FixJekyll.add_extension (lstrip (py "/") p)).
  assert (Ht : plain_target t).
  { destruct (add_extension_relative _ (lstrip_no_slash p)) as [Hne _].
    split; [exact Hne|]. unfold t.
    destruct (add_extension_cases (lstrip (py "/") p)) as [-> | ->];
      rewrite ?forallb_app, lstrip_forallb by assumption; reflexivity. }
  rewrite <- (app_nil_r (link g1 t)).
  rewrite add_md_link by assumption. f_equal.
  apply (add_md_excluded (mk_match (link g1 t) g1 t None)).
  now apply scheme_ok_excluded.
Qed.

Lemma template_then_extension_witness :
  FixJekyll.new_content (py "[Guide]({{ '/setup' | relative_url }})")
  = py "[Guide](setup.md)" /\
  AddMd.new_content
    (FixJekyll.new_content (py "[Guide]({{ '/setup' | relative_url }})"))
  = FixJekyll.new_content (py "[Guide]({{ '/setup' | relative_url }})").
Proof.
  apply (template_then_extension usual (py "Guide") (py "/setup")).
  - repeat split; reflexivity.
  - split; [discriminate|reflexivity].
  - split; [discriminate|reflexivity].
  - reflexivity.
  - reflexivity.
Defined.

(** ** The update and the driver of fix-relative-links.py *)

(** On a path that holds [commands], the update is the update of the
    other two scripts, with the prefix-stripping pass. *)
Lemma fix_relative_as_fix_file (p : path) (w : world) :
  str_in (py "commands") p = true ->
  FixRelative.fix_links_in_file p w = fix_file FixRelative.new_content p w.
Proof.
  intros H. unfold FixRelative.fix_links_in_file, fix_file, try_except, bind,
    read_text.
  destruct (read_exn (files w p)); [reflexivity|]. now rewrite H.
Qed.

(** On any other path, the update reads and goes through its handler or
    returns. *)
Lemma fix_relative_outside (p : path) (w : world) :
  str_in (py "commands") p = false ->
  FixRelative.fix_links_in_file p w =
  match read_exn (files w p) with
  | Some e => logged p e (traced w [ReadOp p])
  | None => (Ok false, traced w [ReadOp p])
  end.
Proof.
  intros H. unfold FixRelative.fix_links_in_file, try_except, bind,
    read_text, ret.
  destruct (read_exn (files w p)); [reflexivity|]. now rewrite H.
Qed.

(** X5.  A document whose path does not hold [commands] is read by the
    update of fix-relative-links.py and never written, whatever links it
    holds: every document stays as it was and the trace grows by the one
    read.  The update returns [False] and prints nothing when the read
    succeeded; when the read raised it prints the line of the handler and
    returns [False], unless [print] raises for that line: then that
    exception leaves the update and nothing is printed. *)
Theorem outside_commands_read_only (w : world) (p : path) :
  str_in (py "commands") p = false ->
  exists r w',
    FixRelative.fix_links_in_file p w = (r, w') /\
    (forall q, files w' q = files w q) /\ docs w' = docs w /\
    trace w' = trace w ++ [ReadOp p] /\
    match read_exn (files w p) with
    | None => r = Ok false /\ stdout w' = stdout w
    | Some e =>
        match print_raises w (stdout w) (error_line p e) with
        | None => r = Ok false /\ stdout w' = stdout w ++ [error_line p e]
        | Some e' => r = Raise e' /\ stdout w' = stdout w
        end
    end.
Proof.
  intros H. rewrite fix_relative_outside by assumption.
  destruct (read_exn (files w p)) as [e|].
  - rewrite logged_cases. cbn [print_raises stdout traced].
    destruct (print_raises w (stdout w) (error_line p e));
      eexists _, _; (split; [reflexivity|]); repeat split.
  - eexists _, _. split; [reflexivity|]. repeat split.
Qed.

Lemma outside_commands_read_only_witness :
  exists w',
    FixRelative.fix_links_in_file (py "docs/index.md") outside_world
    = (Ok false, w') /\
    data (files w' (py "docs/index.md")) = py "[See](commands/build.md)" /\
    trace w' = [ReadOp (py "docs/index.md")].
Proof.
  destruct (outside_commands_read_only outside_world (py "docs/index.md")
              eq_refl) as (r & w' & E & Hf & _ & Ht & Hr).
  cbn in Hr. destruct Hr as [-> _].
  exists w'. split; [exact E|]. rewrite Hf, Ht. split; reflexivity.
Defined.

(** One document in the loop of fix-relative-links.py, on a standard
    output that takes every line. *)
Lemma fix_relative_step (q : path) (w : world) :
  stdout_ok w ->
  exists b w1,
    FixRelative.fix_links_in_file q w = (Ok b, w1) /\
    later w w1 /\ reads (trace w1) = reads (trace w) ++ [q].
Proof.
  intros Hok. destruct (str_in (py "commands") q) eqn:Hq.
  - rewrite fix_relative_as_fix_file by assumption.
    destruct (fix_file_step FixRelative.new_content q w)
      as (r & w1 & E & Hl & Hr & _ & Hc).
    destruct r as [b|e]; [eauto|].
    destruct Hc as (_ & out & line & Hp). now rewrite Hok in Hp.
  - rewrite fix_relative_outside by assumption.
    destruct (read_exn (files w q)) as [e|].
    + rewrite logged_cases. cbn [print_raises stdout traced]. rewrite Hok.
      eexists _, _. split; [reflexivity|].
      split; [|cbn; now rewrite reads_app].
      eapply later_trans; [apply later_traced|apply later_printed].
    + eexists _, _. split; [reflexivity|].
      split; [apply later_traced|cbn; now rewrite reads_app].
Qed.

Lemma fix_relative_for_each : forall (l : list path) (n : nat) (w : world),
  stdout_ok w ->
  exists n' w',
    FixRelative.for_each l n w = (Ok n', w') /\
    n <= n' <= n + length l /\
    later w w' /\ reads (trace w') = reads (trace w) ++ l.
Proof.
  induction l as [|q l IH]; intros n w Hok.
  - exists n, w. cbn. rewrite app_nil_r.
    repeat split; auto using later_refl; lia.
  - destruct (fix_relative_step q w Hok) as (b & w1 & E & Hl1 & Hr1).
    assert (Hok1 : stdout_ok w1) by (eapply later_stdout_ok; eassumption).
    cbn [FixRelative.for_each]. unfold bind at 1. rewrite E.
    destruct b.
    + unfold bind at 1. rewrite print_ok by assumption.
      destruct (IH (n + 1) (printed w1 (py "  Fixed: " ++ q)))
        as (n' & w' & E' & Hn & Hl' & Hr').
      { eapply later_stdout_ok; [apply later_printed|exact Hok1]. }
      exists n', w'. split; [exact E'|]. split; [simpl; lia|]. split.
      * eapply later_trans; [exact Hl1|].
        eapply later_trans; [apply later_printed|exact Hl'].
      * rewrite Hr'. cbn [printed trace]. rewrite Hr1, <- app_assoc.
        reflexivity.
    + destruct (IH n w1 Hok1) as (n' & w' & E' & Hn & Hl' & Hr').
      exists n', w'. split; [exact E'|]. split; [simpl; lia|]. split.
      * eapply later_trans; eassumption.
      * rewrite Hr', Hr1, <- app_assoc. reflexivity.
Qed.

(** X6.  The driver of fix-relative-links.py has two gates.  Without the
    directory [docs] it prints that and stops; with [docs] but without
    [docs/commands] it prints that and stops: in both cases, when
    standard output takes the line, no file is read or written and there
    is no summary line.  With both directories and a standard output that
    takes every line it reads every listed document, in order, and ends
    on the summary line, whose count is at most the number of
    documents. *)
Theorem fix_relative_main_outcome (w : world) (commands : option (list path)) :
  (docs w = None ->
   print_raises w (stdout w) (py "Error: docs directory not found") = None ->
   FixRelative.main commands w
   = (Ok tt, printed w (py "Error: docs directory not found"))) /\
  (docs w <> None -> commands = None ->
   print_raises w (stdout w) (py "Error: commands directory not found") = None ->
   FixRelative.main commands w
   = (Ok tt, printed w (py "Error: commands directory not found"))) /\
  (docs w <> None -> forall l, commands = Some l -> stdout_ok w ->
   exists n w',
     FixRelative.main commands w = (Ok tt, w') /\
     n <= length l /\
     last (stdout w') [] = summary_line n /\
     reads (trace w') = reads (trace w) ++ l).
Proof.
  unfold FixRelative.main. repeat split.
  - intros H Hp. rewrite H. unfold print. now rewrite Hp.
  - intros H -> Hp. destruct (docs w) eqn:Hd; [|contradiction].
    unfold print. now rewrite Hp.
  - intros H l -> Hok. destruct (docs w) as [d|] eqn:Hd; [|contradiction].
    set (A := py "Found " ++ str_of_nat (length l)
              ++ py " markdown files in commands directory").
    set (w0 := printed (printed w A) (LF :: py "Fixing relative links...")).
    assert (Hl0 : later w w0) by (eapply later_trans; apply later_printed).
    assert (Hok0 : stdout_ok w0) by (eapply later_stdout_ok; eassumption).
    destruct (fix_relative_for_each l 0 w0 Hok0) as (n & w' & E & Hn & Hl' & Hr).
    exists n. eexists. split.
    { etransitivity; [apply bind_ok; now apply print_ok|].
      etransitivity;
        [apply bind_ok; apply print_ok; eapply later_stdout_ok;
         [apply later_printed|exact Hok]|].
      etransitivity; [apply bind_ok; exact E|].
      apply print_ok. eapply later_stdout_ok; eassumption. }
    cbn [stdout trace printed]. split; [lia|].
    split; [apply last_last|exact Hr].
Qed.

Lemma fix_relative_main_outcome_witness :
  FixRelative.main None outside_world
  = (Ok tt, printed outside_world (py "Error: commands directory not found")) /\
  exists n w',
    FixRelative.main (Some [py "docs/commands/auth.md"]) outside_world
    = (Ok tt, w') /\ n <= 1 /\ last (stdout w') [] = summary_line n /\
    reads (trace w') = [py "docs/commands/auth.md"].
Proof.
  destruct (fix_relative_main_outcome outside_world None) as (_ & H & _).
  split; [apply H; [discriminate|reflexivity|reflexivity]|].
  destruct (fix_relative_main_outcome outside_world
              (Some [py "docs/commands/auth.md"])) as (_ & _ & H').
  apply (H' ltac:(discriminate) _ eq_refl (fun _ _ => eq_refl)).
Defined.

(** ** What the summary counts *)

(** X10.  On a standard output that takes every line and with a listing
    whose paths name distinct files, the count on the summary line of
    add-md-extensions.py and of fix-jekyll-links.py is the number of
    listed documents that can be read, that the pass changes, and that
    can be written; each of them has its line [Fixed: path] on standard
    output. *)
Theorem summary_counts_fixed_documents (w : world) (l : list path) :
  docs w = Some l -> stdout_ok w -> distinct_files w l ->
  (exists w',
     AddMd.main w = (Ok tt, w') /\
     last (stdout w') []
     = summary_line (length (filter (fixable AddMd.new_content w) l)) /\
     (forall p, In p l -> fixable AddMd.new_content w p = true ->
                In (fixed_line p) (stdout w'))) /\
  (exists w',
     FixJekyll.main w = (Ok tt, w') /\
     last (stdout w') []
     = summary_line (length (filter (fixable FixJekyll.new_content w) l)) /\
     (forall p, In p l -> fixable FixJekyll.new_content w p = true ->
                In (fixed_line p) (stdout w'))).
Proof.
  intros Hd Hok Hnd. unfold AddMd.main, FixJekyll.main. split.
  - destruct (main_with_docs AddMd.new_content
                (py "Adding .md extensions to relative links...") w l Hd Hok)
      as (n & w' & E & _ & Hlast & _ & _ & _ & Hdist).
    destruct (Hdist Hnd) as (_ & _ & -> & Hlines). eauto.
  - destruct (main_with_docs FixJekyll.new_content
                (py "Converting Jekyll links to Markdown...") w l Hd Hok)
      as (n & w' & E & _ & Hlast & _ & _ & _ & Hdist).
    destruct (Hdist Hnd) as (_ & _ & -> & Hlines). eauto.
Qed.

Lemma summary_counts_fixed_documents_witness :
  exists w',
    AddMd.main sample_world = (Ok tt, w') /\
    last (stdout w') [] = summary_line 1 /\
    In (py "  Fixed: docs/guide.md") (stdout w').
Proof.
  destruct (summary_counts_fixed_documents sample_world _ eq_refl
              (fun _ _ => eq_refl))
    as [(w' & E & Hlast & Hlines) _].
  - repeat constructor; no_bracket.
  - exists w'. split; [exact E|]. split; [exact Hlast|].
    apply (Hlines (py "docs/guide.md")); [simpl; tauto|reflexivity].
Defined.

(** ** A second run of add-md-extensions.py *)

Lemma filter_none {A : Type} (f : A -> bool) (l : list A) :
  (forall x, In x l -> f x = false) -> filter f l = [].
Proof.
  induction l as [|x l IH]; intros H; [reflexivity|].
  cbn. rewrite (H x) by now left. apply IH. intros y Hy. apply H. now right.
Qed.

(** X11.  On a standard output that takes every line and a tree whose
    listed paths name distinct files that raise nothing and hold no hash
    sign, a run of add-md-extensions.py leaves every listed document with
    its rewritten text, and a second run right after it ends on
    [Fixed 0 files], writes to none of the listed documents and leaves
    them as the first run left them. *)
Theorem second_run_fixes_nothing (w : world) (l : list path) :
  docs w = Some l -> stdout_ok w -> distinct_files w l ->
  (forall p, In p l ->
             healthy w p /\ char_in HASH (data (files w p)) = false) ->
  exists w1 w2,
    AddMd.main w = (Ok tt, w1) /\
    AddMd.main w1 = (Ok tt, w2) /\
    last (stdout w2) [] = summary_line 0 /\
    forall p, In p l ->
      data (files w1 p) = AddMd.new_content (data (files w p)) /\
      files w2 p = files w1 p /\
      writes_to p (trace w2) = writes_to p (trace w1).
Proof.
  intros Hd Hok Hnd Hl. unfold AddMd.main.
  set (banner := py "Adding .md extensions to relative links...").
  destruct (main_with_docs AddMd.new_content banner w l Hd Hok)
    as (n & w1 & E1 & _ & _ & Hlater & _ & _ & Hdist).
  destruct (Hdist Hnd) as (_ & Hdata & _).
  assert (Hfix : forall p, In p l ->
            AddMd.new_content (data (files w1 p)) = data (files w1 p)).
  { intros p Hp. destruct (Hl p Hp) as [[Hr Hw] Hh].
    rewrite (Hdata p Hp Hr Hw).
    now apply add_md_idempotent_without_fragments. }
  assert (Hd1 : docs w1 = Some l) by (destruct Hlater as (-> & _); exact Hd).
  assert (Hok1 : stdout_ok w1) by (eapply later_stdout_ok; eassumption).
  assert (Hnd1 : distinct_files w1 l) by (eapply later_distinct; eassumption).
  destruct (main_with_docs AddMd.new_content banner w1 l Hd1 Hok1)
    as (n2 & w2 & E2 & _ & Hlast & _ & _ & _ & Hdist2).
  destruct (Hdist2 Hnd1) as (_ & _ & Hcount & _).
  rewrite filter_none in Hcount.
  2:{ intros p Hp. unfold fixable.
      destruct (read_exn (files w1 p)); [reflexivity|].
      destruct (write_exn (files w1 p)); [reflexivity|].
      now rewrite (Hfix p Hp), str_eqb_refl. }
  cbn [length] in Hcount. subst n2.
  exists w1, w2. split; [exact E1|]. split; [exact E2|].
  split; [exact Hlast|]. intros p Hp.
  destruct (Hl p Hp) as [[Hr Hw] _].
  split; [now apply Hdata|].
  destruct (main_keeps AddMd.new_content banner w1 p (Hfix p Hp)) as [Ht Hf].
  rewrite E2 in Ht, Hf. now split.
Qed.

Lemma second_run_fixes_nothing_witness :
  exists w1 w2,
    AddMd.main tidy_world = (Ok tt, w1) /\
    AddMd.main w1 = (Ok tt, w2) /\
    last (stdout w2) [] = summary_line 0 /\
    data (files w1 (py "docs/guide.md"))
    = py "See [Guide](setup.md) and [API](https://example.com/api)." /\
    files w2 (py "docs/guide.md") = files w1 (py "docs/guide.md").
Proof.
  destruct (second_run_fixes_nothing tidy_world _ eq_refl (fun _ _ => eq_refl))
    as (w1 & w2 & E1 & E2 & Hlast & Hdocs).
  - repeat constructor; no_bracket.
  - intros p [<-|[<-|[]]]; repeat split; reflexivity.
  - exists w1, w2. split; [exact E1|]. split; [exact E2|].
    split; [exact Hlast|].
    destruct (Hdocs (py "docs/guide.md")) as (Hd & Hf & _); [simpl; tauto|].
    split; [rewrite Hd; vm_compute; reflexivity|exact Hf].
Defined.

(** ** What the two-group patterns match *)

(** X4.  The pattern of add-md-extensions.py matches at the head of a
    text exactly when the text starts with an opening bracket, a display
    text that is not empty and holds no closing bracket, a closing bracket
    and an opening parenthesis, a target that is not empty and holds no
    closing parenthesis, and a closing parenthesis; groups 1 and 2 are
    that display text and that target, so a target ends at the first
    closing parenthesis behind it.  The pattern of fix-relative-links.py
    matches the same texts whose target starts with [commands/] and has
    at least one character more, and its group 2 is the target without
    that prefix. *)
Theorem link_patterns_characterised (s g1 g2 rest : str) :
  (AddMd.pattern s = Some (g1, g2, rest) <->
   s = link g1 g2 ++ rest /\ display_text g1 /\ plain_target g2) /\
  (FixRelative.pattern s = Some (g1, g2, rest) <->
   s = link g1 (py "commands/" ++ g2) ++ rest /\
   display_text g1 /\ plain_target g2).
Proof.
  split; split.
  - intros H. apply add_md_pattern_sound in H as (-> & ? & ? & ? & ?).
    repeat split; assumption.
  - intros (-> & [? ?] & [? ?]). now apply add_md_pattern_link.
  - apply fix_relative_pattern_sound.
  - intros (-> & ? & ?). now apply fix_relative_pattern_link.
Qed.

(** ** A path without quotes in the template helper *)

Section FirstSuccess.

Variable R : Type.




End FirstSuccess.







